(** * CoCoDataGenrator: a shallow embedding of [data/generate_coco_data.py]

    The generator reads COCO annotations and produces padded batches.  The
    embedding follows the Python text method by method.  Exceptions are an
    explicit result type, numpy integer casts are two's-complement wraps on
    [Z], Python floats are IEEE binary64 values ([spec_float] with the
    operations of [SpecFloat]), arrays are nested lists, and the external
    collaborators (the COCO index, [io.imread], [cv2.resize],
    [np.random.shuffle]) are the fields of a record [World].

    Conventions.  [np.array(values, dtype=intN)] keeps the low bits of a
    value that is out of range, as numpy 1.x does; a Python int that no C
    long holds makes it raise OverflowError.  Pixel values are integers: the
    float32 buffers hold what [io.imread] and the binarised masks give, which
    float32 represents exactly.  A fetched image has at most three
    dimensions. *)

From Stdlib Require Import Strings.String.
From Stdlib Require Import ZArith List Bool Lia Permutation.
From Stdlib Require Import Floats.SpecFloat.
Import ListNotations.
Open Scope Z_scope.

(** ** Exceptions *)

Inductive exn : Type :=
| ZeroDivisionError   (* float division by zero, [//] by zero *)
| ValueError          (* numpy: empty reduction, broadcast, pad, ragged stack *)
| OverflowError       (* [float(n)] and [int(x)] out of range *)
| IndexError          (* too many indices for an array *)
| KeyError            (* a dictionary without the key *)
| OSError             (* raised by [io.imread]: nothing to read at the url *)
| TypeError           (* tuple index into a Python list *)
| Cv2Error            (* raised by [cv2.resize] *)
| RecursionError.     (* the interpreter's recursion limit *)

Inductive result (A : Type) : Type :=
| Ok (a : A)
| Raise (e : exn).
Arguments Ok {A} a.
Arguments Raise {A} e.

Definition bind {A B : Type} (r : result A) (k : A -> result B) : result B :=
  match r with
  | Ok a => k a
  | Raise e => Raise e
  end.

Notation "x <- r ;; k" := (bind r (fun x => k))
  (at level 61, r at next level, right associativity).
Notation "' p <- r ;; k" := (bind r (fun p => k))
  (at level 61, p pattern, r at next level, right associativity).

(** A Python [for] loop whose body may raise: the first exception ends it. *)
Fixpoint mapM {A B : Type} (f : A -> result B) (l : list A) : result (list B) :=
  match l with
  | [] => Ok []
  | a :: t => b <- f a ;; bs <- mapM f t ;; Ok (b :: bs)
  end.

(** ** numpy integer types *)

(** Conversion to a signed [bits]-bit integer keeps the low bits. *)
Definition wrap (bits : Z) (z : Z) : Z :=
  (z + 2 ^ (bits - 1)) mod 2 ^ bits - 2 ^ (bits - 1).

Definition int8 : Z -> Z := wrap 8.
Definition int16 : Z -> Z := wrap 16.
Definition int32 : Z -> Z := wrap 32.

Definition in_int16 (z : Z) : bool := (-32768 <=? z) && (z <=? 32767).
Definition in_int32 (z : Z) : bool := (- 2 ^ 31 <=? z) && (z <? 2 ^ 31).
(** The range of a C long (64 bits). *)
Definition in_c_long (z : Z) : bool := (- 2 ^ 63 <=? z) && (z <? 2 ^ 63).

(** [np.array(values, dtype=intN)] on a Python int: the low bits of a value
    that a C long holds, OverflowError for any other. *)
Definition np_int (bits : Z) (z : Z) : result Z :=
  if in_c_long z then Ok (wrap bits z) else Raise OverflowError.

(** ** Python floats (IEEE binary64) *)

Definition prec : Z := 53.
Definition emax : Z := 1024.
Definition float : Type := spec_float.

Definition fmul : float -> float -> float := SFmul prec emax.
Definition fdiv : float -> float -> float := SFdiv prec emax.
Definition fadd : float -> float -> float := SFadd prec emax.

(** The nearest binary64 value to an integer (exact below 2^53). *)
Definition float_of_int (n : Z) : float := binary_normalize prec emax n 0 false.

(** [np.array(m, dtype=np.float32)] on an integer entry. *)
Definition float32_of_int (n : Z) : float := binary_normalize 24 128 n 0 false.

Definition is_finite (f : float) : bool :=
  match f with
  | S754_zero _ | S754_finite _ _ _ => true
  | _ => false
  end.

Definition is_zero (f : float) : bool :=
  match f with
  | S754_zero _ => true
  | _ => false
  end.

(** A finite float is the rational [float_num f / float_den f], with
    [float_den f] a positive power of two. *)
Definition float_num (f : float) : Z :=
  match f with
  | S754_finite s m e => cond_Zopp s (Zpos m * 2 ^ Z.max e 0)
  | _ => 0
  end.

Definition float_den (f : float) : Z :=
  match f with
  | S754_finite _ _ e => 2 ^ Z.max (- e) 0
  | _ => 1
  end.

(** Rounding toward zero and toward minus infinity of the value of [f]. *)
Definition float_trunc (f : float) : Z := Z.quot (float_num f) (float_den f).
Definition float_floor (f : float) : Z := Z.div (float_num f) (float_den f).

(** [cvRound]: to the nearest integer, ties to even. *)
Definition float_round (f : float) : Z :=
  let n := 2 * float_num f + float_den f in
  let d := 2 * float_den f in
  let q := n / d in
  if (n mod d =? 0) && Z.odd q then q - 1 else q.

(** [x >= 0.5] on a float32/float64 value; false on NaN. *)
Definition float_ge_half (f : float) : bool :=
  match f with
  | S754_nan => false
  | S754_infinity s => negb s
  | _ => float_den f <=? 2 * float_num f
  end.

(** Python's [float(n)]. *)
Definition py_float (n : Z) : result float :=
  let f := float_of_int n in
  if is_finite f then Ok f else Raise OverflowError.

(** Python's [a / b] on floats. *)
Definition py_truediv (a b : float) : result float :=
  if is_zero b then Raise ZeroDivisionError else Ok (fdiv a b).

(** Python's [int(x)] on a float. *)
Definition py_int (f : float) : result Z :=
  match f with
  | S754_nan => Raise ValueError
  | S754_infinity _ => Raise OverflowError
  | _ => Ok (float_trunc f)
  end.

(** The conversion double -> int16 behind
    [np.array(float_array, dtype=np.int16)].  It never raises.  The value is
    cut toward zero to a 32-bit integer, of which the low 16 bits are kept:
    40000.0 becomes -25536.  For NaN, the infinities and the values that no
    32-bit integer holds C leaves the result open; [open_case] is what the
    platform gives there. *)
Definition cast_float_int16 (open_case : float -> Z) (f : float) : Z :=
  if is_finite f && in_int32 (float_trunc f) then int16 (float_trunc f)
  else int16 (open_case f).

(** ** Arrays as nested lists *)

Definition matrix (A : Type) : Type := list (list A).
(** An image is indexed [row][column][channel]. *)
Definition image : Type := list (list (list Z)).
(** A box row [[xmin, ymin, xmax, ymax]]. *)
Definition box : Type := (Z * Z * Z * Z)%type.
(** A keypoint row [[x, y, v]]. *)
Definition triple : Type := (Z * Z * Z)%type.

Definition zero_box : box := (0, 0, 0, 0).

Definition box_map (f : Z -> Z) (b : box) : box :=
  let '(x0, y0, x1, y1) := b in (f x0, f y0, f x1, f y1).

Definition box_all (P : Z -> Prop) (b : box) : Prop :=
  let '(x0, y0, x1, y1) := b in P x0 /\ P y0 /\ P x1 /\ P y1.

Definition box_mapM (f : Z -> result Z) (b : box) : result box :=
  let '(x0, y0, x1, y1) := b in
  a <- f x0 ;; b' <- f y0 ;; c <- f x1 ;; d <- f y1 ;; Ok (a, b', c, d).

Definition triple_map (f : Z -> Z) (t : triple) : triple :=
  let '(x, y, v) := t in (f x, f y, f v).

Definition np_shape2 {A : Type} (m : matrix A) : nat * nat :=
  (length m, length (hd [] m)).

Definition np_shape3 (im : image) : nat * nat * nat :=
  (length im, length (hd [] im), length (hd [] (hd [] im))).

Definition np_zeros3 (shape : nat * nat * nat) : image :=
  let '(t0, t1, t2) := shape in repeat (repeat (repeat 0 t2) t1) t0.

(** [np.min] and [np.max] of a 1-D integer array; an empty array has no
    minimum and numpy raises ValueError. *)
Definition np_min (l : list Z) : result Z :=
  match l with
  | [] => Raise ValueError
  | x :: t => Ok (fold_left Z.min t x)
  end.

Definition np_max (l : list Z) : result Z :=
  match l with
  | [] => Raise ValueError
  | x :: t => Ok (fold_left Z.max t x)
  end.

(** [np.where(m)] on a 2-D array: the (row, column) indices of the nonzero
    entries in row-major order. *)
Fixpoint nonzero_from (j : Z) (row : list Z) : list Z :=
  match row with
  | [] => []
  | v :: t => if v =? 0 then nonzero_from (j + 1) t else j :: nonzero_from (j + 1) t
  end.

Fixpoint where_from (i : Z) (m : matrix Z) : list (Z * Z) :=
  match m with
  | [] => []
  | r :: t => map (fun j => (i, j)) (nonzero_from 0 r) ++ where_from (i + 1) t
  end.

Definition np_where (m : matrix Z) : list Z * list Z :=
  let idx := where_from 0 m in (map fst idx, map snd idx).

(** *** Slice assignment into a zero buffer

    [blob[0:h, 0:w, ...] = value] on a fresh zero buffer.  The slice is
    clipped to the buffer, and numpy broadcasts [value] to the clipped region:
    each dimension of [value] must equal the region's or be 1, else
    ValueError.  On the two sliced axes the region has [min d t] entries, so
    the rule reads [d <= t \/ d = 1]; the channel axis is taken whole. *)
Definition fits (d t : nat) : bool := (d <=? t)%nat || (d =? 1)%nat.
Definition bcast (d t : nat) : bool := (d =? t)%nat || (d =? 1)%nat.

(** The first [n] entries of [l] extended by [zero]. *)
Definition overlay {A : Type} (n : nat) (zero : A) (l : list A) : list A :=
  firstn n (l ++ repeat zero (n - length l)).

Definition bcast_px (c : nat) (px : list Z) : list Z :=
  if (length px =? c)%nat then px else repeat (hd 0 px) c.

Definition bcast_rows (n : nat) (rows : matrix Z) : matrix Z :=
  if (length rows =? n)%nat then rows else repeat (hd [] rows) n.

Definition assign_blob3 (shape : nat * nat * nat) (v : image) : result image :=
  let '(t0, t1, t2) := shape in
  let '(h, w, c) := np_shape3 v in
  if fits h t0 && fits w t1 && bcast c t2
  then Ok (overlay t0 (repeat (repeat 0 t2) t1)
             (map (fun row => overlay t1 (repeat 0 t2) (map (bcast_px t2) row)) v))
  else Raise ValueError.

(** The same assignment of a 2-D [value] of shape [(h, w)].  The region has
    shape [(min h t0, min w t1, t2)] and numpy aligns the axes of [value]
    with its last two: [w] with the channels and [h] with the columns.  Every
    row of the region gets the same entries. *)
Definition assign_blob3_plane (shape : nat * nat * nat) (v : matrix Z) : result image :=
  let '(t0, t1, t2) := shape in
  let '(h, w) := np_shape2 v in
  let r1 := Nat.min w t1 in
  if bcast w t2 && bcast h r1
  then Ok (overlay t0 (repeat (repeat 0 t2) t1)
             (repeat (overlay t1 (repeat 0 t2) (map (bcast_px t2) (bcast_rows r1 v)))
                     (Nat.min h t0)))
  else Raise ValueError.

Definition assign_blob2 (t0 t1 : nat) (v : matrix Z) : result (matrix Z) :=
  let '(h, w) := np_shape2 v in
  if fits h t0 && fits w t1
  then Ok (overlay t0 (repeat 0 t1) (map (overlay t1 0) v))
  else Raise ValueError.

(** Python's [l[:k]]. *)
Definition py_take {A : Type} (k : Z) (l : list A) : list A :=
  if k <? 0 then firstn (length l - Z.to_nat (- k)) l else firstn (Z.to_nat k) l.

(** Python's [l[a:b]]. *)
Definition py_index (len : nat) (k : Z) : nat :=
  if k <? 0 then Z.to_nat (Z.max 0 (Z.of_nat len + k)) else Nat.min len (Z.to_nat k).

Definition py_slice {A : Type} (a b : Z) (l : list A) : list A :=
  let i := py_index (length l) a in
  let j := py_index (length l) b in
  firstn (j - i) (skipn i l).

(** [np.array(entries, dtype=...)] stacks entries of one shape and raises
    ValueError on a ragged list. *)
Fixpoint shape_eqb (s t : list nat) : bool :=
  match s, t with
  | [], [] => true
  | a :: s', b :: t' => (a =? b)%nat && shape_eqb s' t'
  | _, _ => false
  end.

Definition homogeneous {A : Type} (shape : A -> list nat) (l : list A) : bool :=
  match l with
  | [] => true
  | x :: t => forallb (fun y => shape_eqb (shape y) (shape x)) t
  end.

Definition np_stack {A : Type} (shape : A -> list nat) (cast : A -> A) (l : list A)
  : result (list A) :=
  if homogeneous shape l then Ok (map cast l) else Raise ValueError.

(** ** The annotation store and the other collaborators *)

Module Ann.
(** One COCO annotation record.  [bbox] is [[x, y, w, h]]; [keypoints] is
    the flat list, empty when the record carries none, with integer entries
    that an int64 array holds; [mask] is what
    [coco.annToMask] returns for the record, a 0/1 array of the image's
    height and width. *)
Record t : Type := mk {
  bbox : float * float * float * float;
  category_id : Z;
  iscrowd : Z;
  keypoints : list Z;
  mask : matrix Z
}.
End Ann.

(** What [io.imread] hands back, by number of dimensions. *)
Inductive fetched : Type :=
| Undecoded                  (* fewer than two dimensions *)
| Gray (px : matrix Z)       (* [H, W] *)
| Color (px : image).        (* [H, W, C] *)

(** What [cv2.resize] hands back for an image: OpenCV drops the channel axis
    of a single-channel image and returns a 2-D array for it. *)
Inductive resized : Type :=
| Resized2 (m : matrix Z)    (* [H', W'] *)
| Resized3 (px : image).     (* [H', W', C] *)

Record World : Type := mkWorld {
  (** [coco.imgToAnns], in key order *)
  imgToAnns : list (Z * list Ann.t);
  (** [coco.imgs]: the ['coco_url'] of each image record, by image id;
      [None] for a record without that key *)
  imgs : list (Z * option string);
  (** [io.imread(url)] *)
  imread : string -> result fetched;
  (** [cv2.resize(im, None, None, fx=s, fy=s, interpolation=INTER_LINEAR)] *)
  cv2_resize : float -> image -> result resized;
  (** the same call on a float32 mask *)
  cv2_resize_mask : float -> matrix float -> result (matrix float);
  (** the permutation applied by the n-th call of [np.random.shuffle] *)
  np_random_shuffle : nat -> list Z -> list Z;
  (** the platform's double -> int16 conversion where C leaves it open *)
  c_double_to_int16 : float -> Z
}.

(** The constructor's keyword arguments. *)
Record Config : Type := mkConfig {
  img_shape : nat * nat * nat;
  batch_size : Z;
  max_instances : Z;
  include_crowd : bool;
  include_mask : bool;
  include_keypoint : bool
}.

Definition crowd_matches (c : Config) (a : Ann.t) : bool :=
  Ann.iscrowd a =? Z.b2z (include_crowd c).

Fixpoint lookup {A : Type} (k : Z) (l : list (Z * A)) : option A :=
  match l with
  | [] => None
  | (k', v) :: t => if k' =? k then Some v else lookup k t
  end.

(** [[coco.anns[i] for i in coco.getAnnIds(imgIds=image_id, iscrowd=...)]]. *)
Definition getAnns (w : World) (c : Config) (image_id : Z) : list Ann.t :=
  match lookup image_id (imgToAnns w) with
  | Some annos => filter (crowd_matches c) annos
  | None => []
  end.

(** ** _resize_im *)

(** Line 112: [np.array(bboxes * im_scale, dtype=np.int16)]. *)
Definition scale_coord (w : World) (im_scale : float) (x : Z) : Z :=
  cast_float_int16 (c_double_to_int16 w) (fmul (float_of_int x) im_scale).

Definition resize_boxes (w : World) (im_scale : float) (bboxes : list box) : list box :=
  map (box_map (scale_coord w im_scale)) bboxes.

Definition scale_for (target : nat) (size_max : Z) : result float :=
  t <- py_float (Z.of_nat target) ;;
  m <- py_float size_max ;;
  py_truediv t m.

Definition _resize_im (w : World) (c : Config) (origin_im : image) (bboxes : list box)
  : result (image * list box) :=
  let '(h0, w0, _) := np_shape3 origin_im in
  let im_size_max := Z.max (Z.of_nat h0) (Z.of_nat w0) in
  im_scale <- scale_for (fst (fst (img_shape c))) im_size_max ;;
  im_resize <- cv2_resize w im_scale origin_im ;;
  im_blob <- match im_resize with
             | Resized3 px => assign_blob3 (img_shape c) px
             | Resized2 m => assign_blob3_plane (img_shape c) m
             end ;;
  Ok (im_blob, resize_boxes w im_scale bboxes).

(** ** _resize_mask *)

(** Lines 135-142: the box of the nonzero pixels of a binarised mask. *)
Definition mask_bdbox (m_resize : matrix Z) : result box :=
  let '(h, w) := np_shape2 m_resize in
  let '(rows, cols) := np_where m_resize in
  cmin <- np_min cols ;;
  let xmin := if 0 <=? cmin then cmin else 0 in
  rmin <- np_min rows ;;
  let ymin := if 0 <=? rmin then rmin else 0 in
  cmax <- np_max cols ;;
  let xmax := if cmax <=? Z.of_nat w then cmax else Z.of_nat w in
  rmax <- np_max rows ;;
  let ymax := if rmax <=? Z.of_nat h then rmax else Z.of_nat h in
  Ok (xmin, ymin, xmax, ymax).

Definition binarize (m : matrix float) : matrix Z :=
  map (map (fun v => if float_ge_half v then 1 else 0)) m.

(** The body of the loop over [origin_masks], lines 130-147. *)
Definition resize_one_mask (w : World) (c : Config) (im_scale : float) (m : matrix Z)
  : result (box * matrix Z) :=
  let '(t0, t1, _) := img_shape c in
  m_resize <- cv2_resize_mask w im_scale (map (map float32_of_int) m) ;;
  let m_resize := binarize m_resize in
  bdbox <- mask_bdbox m_resize ;;
  mask_blob <- assign_blob2 t0 t1 m_resize ;;
  Ok (bdbox, mask_blob).

(** [np.concatenate(planes, axis=-1)]: the stack is kept as the list of its
    planes, plane k being [masks_resize[:, :, k]]. *)
Definition np_concatenate (planes : list (matrix Z)) : result (list (matrix Z)) :=
  match planes with
  | [] => Raise ValueError
  | _ => Ok planes
  end.

Definition _resize_mask (w : World) (c : Config) (origin_masks : list (matrix Z))
  : result (list (matrix Z) * list box) :=
  (* np.shape of the list is (N, H, W), or (0,) when it is empty *)
  let mask_size_max :=
    Z.max (Z.of_nat (length origin_masks)) (Z.of_nat (length (hd [] origin_masks))) in
  im_scale <- scale_for (fst (fst (img_shape c))) mask_size_max ;;
  per <- mapM (resize_one_mask w c im_scale) origin_masks ;;
  let gt_boxes := map (box_map int16) (map fst per) in
  masks_resize <- np_concatenate (map snd per) ;;
  Ok (masks_resize, gt_boxes).

(** ** _data_generation *)

(** The [img] entry of the output dictionary: the list [[]] it starts as, or
    the resized image. *)
Inductive img_field : Type :=
| NoImg
| Img (px : image).

Module Sample.
Record t : Type := mk {
  img : img_field;
  labels : list Z;
  bboxes : list box;
  masks : list (matrix Z);
  keypoints : list (list triple)
}.
End Sample.

(** Lines 170-176. *)
Definition ann_box (a : Ann.t) : result box :=
  let '(bx, by_, bw, bh) := Ann.bbox a in
  xmin <- py_int bx ;;
  ymin <- py_int by_ ;;
  xmax <- py_int (fadd (float_of_int xmin) bw) ;;
  ymax <- py_int (fadd (float_of_int ymin) bh) ;;
  Ok (xmin, ymin, xmax, ymax).

(** [np.reshape(keypoint, [-1, 3])]. *)
Fixpoint np_reshape3 (l : list Z) : result (list triple) :=
  match l with
  | [] => Ok []
  | x :: y :: v :: t => r <- np_reshape3 t ;; Ok ((x, y, v) :: r)
  | _ => Raise ValueError
  end.

Definition nonempty {A : Type} (l : list A) : bool :=
  match l with
  | [] => false
  | _ => true
  end.

(** One turn of the loop over the annotation ids, lines 167-188. *)
Definition per_ann (c : Config) (a : Ann.t)
  : result (box * Z * option (matrix Z) * option (list triple)) :=
  b <- ann_box a ;;
  let label := Ann.category_id a in
  let m := if include_mask c then Some (Ann.mask a) else None in
  kp <- (if include_keypoint c && nonempty (Ann.keypoints a)
         then r <- np_reshape3 (Ann.keypoints a) ;; Ok (Some r)
         else Ok None) ;;
  Ok (b, label, m, kp).

Fixpoint somes {A : Type} (l : list (option A)) : list A :=
  match l with
  | [] => []
  | Some a :: t => a :: somes t
  | None :: t => somes t
  end.

(** [np.array(keypoints, dtype=np.int8)] on the collected [K, 3] arrays. *)
Definition keypoints_int8 (keypoints : list (list triple)) : result (list (list triple)) :=
  np_stack (fun k => [length k; 3%nat]) (map (triple_map int8)) keypoints.

(** 2-D image to three channels: [expand_dims] then two zero channels. *)
Definition gray_to_color (px : matrix Z) : image :=
  map (map (fun v => [v; 0; 0])) px.

(** Line 211: [io.imread(self.coco.imgs[image_id]['coco_url'])]. *)
Definition fetch (w : World) (image_id : Z) : result fetched :=
  match lookup image_id (imgs w) with
  | Some (Some url) => imread w url
  | _ => Raise KeyError
  end.

Definition _data_generation (w : World) (c : Config) (image_id : Z) : result Sample.t :=
  let anns := getAnns w c image_id in
  per <- mapM (per_ann c) anns ;;
  let bboxes := map (fun p => fst (fst (fst p))) per in
  let labels := map (fun p => snd (fst (fst p))) per in
  let masks := somes (map (fun p => snd (fst p)) per) in
  let keypoints := somes (map snd per) in
  (* outputs['masks'], outputs['bboxes'] and the local bboxes, lines 200-204 *)
  '(out_masks, out_bboxes, bboxes) <-
     (if include_mask c
      then '(masks_resize, gt_boxes) <- _resize_mask w c masks ;;
           Ok (masks_resize, gt_boxes, gt_boxes)
      else Ok ([], [], bboxes)) ;;
  (* outputs['keypoints'], lines 207-209 *)
  out_keypoints <- (if include_keypoint c then keypoints_int8 keypoints else Ok []) ;;
  let outputs := Sample.mk NoImg [] out_bboxes out_masks out_keypoints in
  let continue (img : image) : result Sample.t :=
    (* lines 218-219; the int16 array of line 202 goes through unchanged *)
    labels <- mapM (np_int 8) labels ;;
    bboxes <- mapM (box_mapM (np_int 16)) bboxes ;;
    '(img_resize, bboxes_resize) <- _resize_im w c img bboxes ;;
    Ok (Sample.mk (Img img_resize) labels bboxes_resize out_masks out_keypoints) in
  img <- fetch w image_id ;;
  match img with
  | Undecoded => Ok outputs
  | Gray px => continue (gray_to_color px)
  | Color px => continue px
  end.

(** ** The generator's mutable attributes *)

Record State : Type := mkState {
  current_batch_index : Z;
  total_batch_size : Z;
  img_ids : list Z;
  (** how many times [np.random.shuffle] has been called *)
  shuffles : nat
}.

(** [__init__] followed by [load_data]: the ids of the images with at least
    one annotation of the configured crowd flag, in key order. *)
Definition load_data (w : World) (c : Config) : result State :=
  let target_img_ids :=
    map fst (filter (fun kv => nonempty (filter (crowd_matches c) (snd kv)))
               (imgToAnns w)) in
  if batch_size c =? 0 then Raise ZeroDivisionError
  else Ok (mkState 0 (Z.of_nat (length target_img_ids) / batch_size c) target_img_ids 0).

Definition _on_epoch_end (w : World) (st : State) : State :=
  mkState (current_batch_index st) (total_batch_size st)
    (np_random_shuffle w (shuffles st) (img_ids st)) (S (shuffles st)).

(** ** next_batch *)

Module Batch.
Record t : Type := mk {
  imgs : list img_field;
  bboxes : list (list box);
  labels : list (list Z);
  masks : list (list (matrix Z));
  keypoints : list (list (list triple))
}.
End Batch.

(** [np.shape] of the [img] entry: [(0,)] for the empty list. *)
Definition np_shape_img (f : img_field) : list nat :=
  match f with
  | NoImg => [0%nat]
  | Img px => let '(h, w, c) := np_shape3 px in [h; w; c]
  end.

(** Lines 61-67: boxes and labels cut or padded to [max_instances]. *)
Definition pad_or_truncate (c : Config) (data : Sample.t) : result (list box * list Z) :=
  let n := Z.of_nat (length (Sample.labels data)) in
  if max_instances c <? n then
    match Sample.bboxes data, Sample.img data with
    | [], NoImg => Raise TypeError
    | [], Img _ => Raise IndexError
    | bb, _ => Ok (py_take (max_instances c) bb, py_take (max_instances c) (Sample.labels data))
    end
  else
    let pad_num := Z.to_nat (max_instances c - n) in
    match Sample.bboxes data with
    | [] => Raise ValueError
    | bb => Ok (bb ++ repeat zero_box pad_num, Sample.labels data ++ repeat 0 pad_num)
    end.

(** The body of the loop over [batch_img_ids], lines 57-73; [None] when the
    guard of line 58 rejects the sample. *)
Definition batch_entry (w : World) (c : Config) (img_id : Z)
  : result (option (Sample.t * list box * list Z)) :=
  data <- _data_generation w c img_id ;;
  if (0 <? length (np_shape_img (Sample.img data)))%nat
  then '(bb, ll) <- pad_or_truncate c data ;; Ok (Some (data, bb, ll))
  else Ok None.

Definition img_int32 (f : img_field) : img_field :=
  match f with
  | NoImg => NoImg
  | Img px => Img (map (map (map int32)) px)
  end.

Definition masks_shape (planes : list (matrix Z)) : list nat :=
  [length (hd [] planes); length (hd [] (hd [] planes)); length planes].

Definition keypoints_shape (kps : list (list triple)) : list nat :=
  match kps with
  | [] => [0%nat]
  | k :: _ => [length kps; length k; 3%nat]
  end.

(** Lines 80-88. *)
Definition assemble (c : Config) (kept : list (Sample.t * list box * list Z))
  : result Batch.t :=
  let batch_imgs := map (fun e => Sample.img (fst (fst e))) kept in
  let batch_bboxes := map (fun e => snd (fst e)) kept in
  let batch_labels := map snd kept in
  let batch_masks :=
    if include_mask c then map (fun e => Sample.masks (fst (fst e))) kept else [] in
  let batch_keypoints :=
    if include_keypoint c then map (fun e => Sample.keypoints (fst (fst e))) kept else [] in
  imgs <- np_stack np_shape_img img_int32 batch_imgs ;;
  bboxes <- np_stack (fun b => [length b; 4%nat]) (map (box_map int16)) batch_bboxes ;;
  labels <- np_stack (fun l => [length l]) (map int8) batch_labels ;;
  masks <- np_stack masks_shape (map (map (map int8))) batch_masks ;;
  keypoints <- np_stack keypoints_shape (map (map (triple_map int16))) batch_keypoints ;;
  Ok (Batch.mk imgs bboxes labels masks keypoints).

(** The state after lines 44-46. *)
Definition rollover (w : World) (st : State) : State :=
  if total_batch_size st <=? current_batch_index st
  then _on_epoch_end w (mkState 0 (total_batch_size st) (img_ids st) (shuffles st))
  else st.

Definition advance (st : State) : State :=
  mkState (current_batch_index st + 1) (total_batch_size st) (img_ids st) (shuffles st).

(** [next_batch]; [fuel] bounds the depth of the recursion of line 78, as the
    interpreter's recursion limit does. *)
Fixpoint next_batch (w : World) (c : Config) (fuel : nat) (st : State)
  : result (Batch.t * State) :=
  match fuel with
  | O => Raise RecursionError
  | S fuel' =>
      let st := rollover w st in
      let batch_img_ids :=
        py_slice (current_batch_index st * batch_size c)
                 ((current_batch_index st + 1) * batch_size c) (img_ids st) in
      entries <- mapM (batch_entry w c) batch_img_ids ;;
      let kept := somes entries in
      let st := advance st in
      if Z.of_nat (length kept) <? batch_size c
      then next_batch w c fuel' st
      else output <- assemble c kept ;; Ok (output, st)
  end.

(** ** Call sequences

    The states in which a call of [next_batch] can start.  A call that starts
    in [st] leaves [rollover st] behind when its loop raises, and
    [advance (rollover st)] otherwise; there it either returns or calls
    itself again (line 78).  [_on_epoch_end] may also be called on its own. *)
Inductive reachable (w : World) (st0 : State) : State -> Prop :=
| reach_init : reachable w st0 st0
| reach_shuffle st : reachable w st0 st -> reachable w st0 (_on_epoch_end w st)
| reach_raise st : reachable w st0 st -> reachable w st0 (rollover w st)
| reach_call st : reachable w st0 st -> reachable w st0 (advance (rollover w st)).

(** ** Shapes and entries of nested lists, for the statements below *)

Definition regular3 (h w c : nat) (im : image) : Prop :=
  length im = h /\
  Forall (fun row => length row = w /\ Forall (fun px => length px = c) row) im.

Definition get3 (im : image) (i j k : nat) : Z :=
  nth k (nth j (nth i im []) []) 0.

Definition bbox_finite (a : Ann.t) : Prop :=
  let '(bx, by_, bw, bh) := Ann.bbox a in
  is_finite bx = true /\ is_finite by_ = true /\
  is_finite (fadd (float_of_int (float_trunc bx)) bw) = true /\
  is_finite (fadd (float_of_int (float_trunc by_)) bh) = true.

(** The keypoint rows of the annotations that carry keypoints, as the
    annotation file gives them. *)
Definition raw_keypoints (anns : list Ann.t) : result (list (list triple)) :=
  mapM np_reshape3 (filter nonempty (map Ann.keypoints anns)).

(** [x'] is the product of [x] and the scale, computed in binary64, cut
    toward zero, and it fits an int16. *)
Definition scaled (s : float) (x x' : Z) : Prop :=
  let p := fmul (float_of_int x) s in
  is_finite p = true /\ in_int16 (float_trunc p) = true /\ x' = float_trunc p.

(** The product of [x] and the scale is finite and, cut toward zero, fits an
    int16. *)
Definition fits_int16 (s : float) (x : Z) : Prop :=
  let p := fmul (float_of_int x) s in
  is_finite p = true /\ in_int16 (float_trunc p) = true.

Definition box_scaled (s : float) (b b' : box) : Prop :=
  let '(x0, y0, x1, y1) := b in
  let '(x0', y0', x1', y1') := b' in
  scaled s x0 x0' /\ scaled s y0 y0' /\ scaled s x1 x1' /\ scaled s y1 y1'.

(** The first [n] entries of [l], followed by zeros when [l] is shorter. *)
Definition fit_to {A : Type} (n : nat) (zero : A) (l : list A) : list A :=
  firstn n l ++ repeat zero (n - length l).

(** What C10 says of a state [st] of a generator constructed as [st0]. *)
Definition invariant (c : Config) (st0 st : State) : Prop :=
  Permutation (img_ids st0) (img_ids st) /\
  total_batch_size st = total_batch_size st0 /\
  total_batch_size st = Z.of_nat (length (img_ids st)) / batch_size c /\
  (1 <= total_batch_size st0 ->
   0 <= current_batch_index st <= total_batch_size st).

(** The ids of the [k]-th batch of an epoch, lines 48-49. *)
Definition batch_ids (c : Config) (ids : list Z) (k : Z) : list Z :=
  py_slice (k * batch_size c) ((k + 1) * batch_size c) ids.

(** The generator's state after [n] activations of [next_batch] that did
    not raise; a recursive call of line 78 is an activation of its own. *)
Fixpoint calls (w : World) (n : nat) (st : State) : State :=
  match n with
  | O => st
  | S n' => advance (rollover w (calls w n' st))
  end.

(** The image handed to [_resize_im] for a fetched array, lines 212-216. *)
Definition decoded (f : fetched) : option image :=
  match f with
  | Undecoded => None
  | Gray px => Some (gray_to_color px)
  | Color px => Some px
  end.

(** A mask plane of the target's height and width with entries 0 and 1. *)
Definition binary_plane (t0 t1 : nat) (p : matrix Z) : Prop :=
  length p = t0 /\
  Forall (fun row => length row = t1 /\ Forall (fun v => v = 0 \/ v = 1) row) p.

(** The entry of a 2-D array, 0 outside it. *)
Definition get2 (m : matrix Z) (i j : nat) : Z := nth j (nth i m []) 0.



(** Every set pixel of [plane] lies within the box. *)
Definition box_encloses (b : box) (plane : matrix Z) : Prop :=
  let '(x0, y0, x1, y1) := b in
  forall i j, get2 plane i j <> 0 ->
    x0 <= Z.of_nat j <= x1 /\ y0 <= Z.of_nat i <= y1.

(** All rows have one length, as the rows of an array do. *)
Definition rectangular {A : Type} (m : matrix A) : Prop :=
  exists w, Forall (fun r => length r = w) m.

(** Two samples that cannot be stacked into one batch: one has an empty
    image and the other has not, or they differ in the number of mask planes
    or of keypoint rows while these are collected. *)
Definition differ (c : Config) (s1 s2 : Sample.t) : Prop :=
  (Sample.img s1 = NoImg /\ Sample.img s2 <> NoImg) \/
  (include_mask c = true /\
   length (Sample.masks s1) <> length (Sample.masks s2)) \/
  (include_keypoint c = true /\
   length (Sample.keypoints s1) <> length (Sample.keypoints s2)).

(** ** A runnable resize

    [cv2.resize] is a collaborator; to run the generator on concrete data the
    examples use nearest-neighbour resampling with cv2's output size
    [cvRound(size * scale)], which cv2 rejects when empty.  It returns what
    INTER_LINEAR returns when the scale is 1 and when the array is constant,
    and the examples stay within these two cases. *)
Definition dsize (s : float) (n : nat) : nat :=
  Z.to_nat (float_round (fmul (float_of_int (Z.of_nat n)) s)).

Definition resample {A : Type} (n' : nat) (l : list A) : list A :=
  flat_map (fun i => match nth_error l (i * length l / n') with
                     | Some x => [x]
                     | None => []
                     end) (seq 0 n').

Definition resize_nearest {A : Type} (s : float) (m : matrix A) : result (matrix A) :=
  let '(h, w) := np_shape2 m in
  let h' := dsize s h in
  let w' := dsize s w in
  if (h' =? 0)%nat || (w' =? 0)%nat then Raise Cv2Error
  else Ok (map (resample w') (resample h' m)).

(** On an image: a single-channel image comes back without its channel
    axis. *)
Definition cv2_nearest (s : float) (im : image) : result resized :=
  r <- resize_nearest s im ;;
  let '(_, _, ch) := np_shape3 im in
  Ok (if (ch =? 1)%nat then Resized2 (map (map (hd 0)) r) else Resized3 r).

Definition no_shuffle (n : nat) (l : list Z) : list Z := l.

(** The conversion of x86-64, which gives the 32-bit pattern 0x80000000 in
    the open cases: its low 16 bits are 0. *)
Definition x86_open_case (f : float) : Z := 0.

(** ** Example data *)

Definition f0 : float := float_of_int 0.
Definition f1 : float := float_of_int 1.
Definition f2 : float := float_of_int 2.
Definition f4 : float := float_of_int 4.
Definition half : float := fdiv f1 f2.

Definition black (h w : nat) : image := repeat (repeat [0; 0; 0] w) h.

(** Every annotated image has a record, and every url gives [pic]. *)
Definition records (anns : list (Z * list Ann.t)) : list (Z * option string) :=
  map (fun kv => (fst kv, Some "http://images.cocodataset.org/x.jpg"%string)) anns.

Definition world_of (anns : list (Z * list Ann.t)) (pic : fetched) : World :=
  mkWorld anns (records anns) (fun _ => Ok pic) cv2_nearest resize_nearest
    no_shuffle x86_open_case.

(** A 4 x 8 image with one annotated instance covering rows 1-2, columns
    2-5, and a 4 x 8 target: the mask scale is 4 / max(1, 4) = 1 and the image
    scale is 4 / max(4, 8) = 0.5. *)
Definition mask_a : matrix Z :=
  [[0; 0; 0; 0; 0; 0; 0; 0];
   [0; 0; 1; 1; 1; 1; 0; 0];
   [0; 0; 1; 1; 1; 1; 0; 0];
   [0; 0; 0; 0; 0; 0; 0; 0]].
Definition ann_a : Ann.t := Ann.mk (f2, f1, f4, f2) 7 0 [] mask_a.
Definition world_a : World := world_of [(1, [ann_a])] (Color (black 4 8)).
Definition config_a : Config := mkConfig (4, 8, 3)%nat 1 2 false true false.

(** A 2 x 2 image with one annotated instance that carries one keypoint at
    x = 200, and a 2 x 2 target: both scales are 1. *)
Definition mask_b : matrix Z := [[1; 1]; [0; 1]].
Definition ann_b : Ann.t := Ann.mk (f0, f0, f2, f2) 7 0 [200; 100; 2] mask_b.
Definition world_b : World := world_of [(1, [ann_b])] (Color (black 2 2)).
Definition config_b : Config := mkConfig (2, 2, 3)%nat 1 2 false true true.
Definition state_b : State := mkState 0 1 [1] 0.
Definition state_b' : State := mkState 1 1 [1] 0.
Definition batch_b : Batch.t :=
  Batch.mk [Img (black 2 2)] [[(0, 0, 1, 1); (0, 0, 0, 0)]] [[7; 0]]
    [[mask_b]] [[[(-56, 100, 2)]]].

(** The same image with an annotation whose mask has no pixel set. *)
Definition ann_c : Ann.t := Ann.mk (f0, f0, f2, f2) 7 0 [] [[0; 0]; [0; 0]].
Definition world_c : World := world_of [(1, [ann_c])] (Color (black 2 2)).

(** The annotations of [world_b] for an image that does not decode. *)
Definition world_d : World := world_of [(1, [ann_b])] Undecoded.
Definition config_plain : Config := mkConfig (2, 2, 3)%nat 1 2 false false false.

(** A target that is taller than wide, and a target of one pixel. *)
Definition config_e : Config := mkConfig (4, 2, 3)%nat 1 2 false false false.
Definition config_f : Config := mkConfig (1, 1, 3)%nat 1 2 false false false.
Definition config_sq : Config := mkConfig (4, 4, 3)%nat 1 2 false false false.

(** Three images, batches of two, and a shuffle that reverses. *)
Definition anns_g : list (Z * list Ann.t) := [(1, [ann_b]); (2, [ann_b]); (3, [ann_b])].
Definition world_g : World :=
  mkWorld anns_g (records anns_g) (fun _ => Ok (Color (black 2 2)))
    cv2_nearest resize_nearest (fun _ l => rev l) x86_open_case.
Definition config_g : Config := mkConfig (2, 2, 3)%nat 2 2 false false false.
Definition state_g : State := mkState 0 1 [1; 2; 3] 0.
Definition state_g' : State := mkState 1 1 [1; 2; 3] 0.
Definition batch_g : Batch.t :=
  Batch.mk [Img (black 2 2); Img (black 2 2)]
    [[(0, 0, 2, 2); (0, 0, 0, 0)]; [(0, 0, 2, 2); (0, 0, 0, 0)]]
    [[7; 0]; [7; 0]] [] [].

(** One eligible image and batches of two: the epoch boundary is 0. *)
Definition config_h : Config := mkConfig (2, 2, 3)%nat 2 2 false false false.
Definition state_h : State := mkState 0 0 [1] 0.
Definition state_h' : State := mkState 1 0 [1] 1.

(** Two images of [world_b], the second with two annotated instances, with
    masks and batches of two. *)
Definition world_m : World :=
  world_of [(1, [ann_b]); (2, [ann_b; ann_b])] (Color (black 2 2)).
Definition config_m : Config := mkConfig (2, 2, 3)%nat 2 2 false true false.
Definition state_m : State := mkState 0 1 [1; 2] 0.
Definition entries_m : list (option (Sample.t * list box * list Z)) :=
  [Some (Sample.mk (Img (black 2 2)) [7] [(0, 0, 1, 1)] [mask_b] [],
         [(0, 0, 1, 1); (0, 0, 0, 0)], [7; 0]);
   Some (Sample.mk (Img (black 2 2)) [7; 7] [(0, 0, 1, 1); (0, 0, 1, 1)]
           [mask_b; mask_b] [],
         [(0, 0, 1, 1); (0, 0, 1, 1)], [7; 7])].

(** The image of [world_b] without a record in [coco.imgs]. *)
Definition world_k : World :=
  mkWorld [(1, [ann_b])] [] (fun _ => Ok (Color (black 2 2)))
    cv2_nearest resize_nearest no_shuffle x86_open_case.

(** An annotation whose box starts at x = 2^70. *)
Definition ann_big : Ann.t := Ann.mk (float_of_int (2 ^ 70), f0, f2, f2) 7 0 [] mask_b.
Definition world_big : World := world_of [(1, [ann_big])] (Color (black 2 2)).

(** A 2 x 2 image with a single channel, shape (2, 2, 1). *)
Definition single_channel : image := [[[5]; [5]]; [[5]; [5]]].

(** The samples of the images of [world_g], [world_a] and [world_b]. *)
Definition sample_g : Sample.t :=
  Sample.mk (Img (black 2 2)) [7] [(0, 0, 2, 2)] [] [].
Definition sample_a : Sample.t :=
  Sample.mk (Img (black 4 8)) [7] [(1, 0, 2, 1)] [mask_a] [].
Definition sample_b : Sample.t :=
  Sample.mk (Img (black 2 2)) [7] [(0, 0, 1, 1)] [mask_b] [[(-56, 100, 2)]].

(** * Properties *)

(** ** The result type *)

Lemma bind_Ok {A B : Type} (r : result A) (k : A -> result B) (b : B) :
  bind r k = Ok b -> exists a, r = Ok a /\ k a = Ok b.
Proof.
  destruct r as [a|e]; simpl; intros H; [eauto | discriminate].
Qed.

Ltac inv_bind H :=
  let a := fresh "a" in
  let E := fresh "E" in
  apply bind_Ok in H; destruct H as (a & E & H).

Lemma mapM_length {A B : Type} (f : A -> result B) (l : list A) (l' : list B) :
  mapM f l = Ok l' -> length l' = length l.
Proof.
  revert l'; induction l as [|a t IH]; simpl; intros l' H.
  - injection H as <-; reflexivity.
  - inv_bind H. inv_bind H. injection H as <-. simpl. f_equal. now apply IH.
Qed.

Lemma mapM_Forall2 {A B : Type} (f : A -> result B) (l : list A) (l' : list B) :
  mapM f l = Ok l' <-> Forall2 (fun a b => f a = Ok b) l l'.
Proof.
  revert l'; induction l as [|a t IH]; simpl; intros l'; split; intros H.
  - injection H as <-; constructor.
  - inversion H; reflexivity.
  - inv_bind H. inv_bind H. injection H as <-. constructor; [assumption | now apply IH].
  - inversion H as [|? b ? t' Hab Ht]; subst. rewrite Hab. simpl.
    apply IH in Ht. rewrite Ht. reflexivity.
Qed.

Lemma somes_length_le {A : Type} (l : list (option A)) :
  (length (somes l) <= length l)%nat.
Proof.
  induction l as [|[a|] t IH]; simpl; lia.
Qed.

Lemma np_stack_length {A : Type} (shape : A -> list nat) (cast : A -> A) (l l' : list A) :
  np_stack shape cast l = Ok l' -> length l' = length l.
Proof.
  unfold np_stack. destruct (homogeneous shape l); intros H; [|discriminate].
  injection H as <-. apply length_map.
Qed.

(** ** Slices *)


(** ** next_batch: the size of a returned batch *)


(** The guard of line 58 holds for the empty list as well: its shape is
    [(0,)], of length 1.  No sample is left out of the batch. *)
Lemma guard_always_passes (f : img_field) :
  (0 <? length (np_shape_img f))%nat = true.
Proof.
  destruct f as [|px]; [reflexivity|].
  simpl. destruct (np_shape3 px) as [[h w] c]. reflexivity.
Qed.

Lemma batch_entry_keeps (w : World) (c : Config) (id : Z)
      (e : option (Sample.t * list box * list Z)) :
  batch_entry w c id = Ok e -> e <> None.
Proof.
  unfold batch_entry. intros H. inv_bind H.
  rewrite guard_always_passes in H. inv_bind H.
  destruct a0 as [bb ll]. injection H as <-. discriminate.
Qed.


(** ** The id sequence, the epoch boundary and the cursor *)

Lemma next_batch_reachable (w : World) (c : Config) (st0 : State) (fuel : nat)
      (st st' : State) (out : Batch.t) :
  reachable w st0 st ->
  next_batch w c fuel st = Ok (out, st') ->
  reachable w st0 st'.
Proof.
  revert st. induction fuel as [|fuel IH]; intros st Hr H.
  - discriminate.
  - cbn [next_batch] in H. inv_bind H.
    destruct (Z.of_nat (length (somes a)) <? batch_size c).
    + eapply IH; [|eassumption]. now apply reach_call.
    + inv_bind H. injection H as _ <-. now apply reach_call.
Qed.

Section Epochs.

Variables (w : World) (c : Config) (st0 : State).

(** [np.random.shuffle] reorders the list it is given. *)
Hypothesis shuffle_permutes : forall n l, Permutation l (np_random_shuffle w n l).

(** [st0] is the state the constructor leaves. *)
Hypothesis constructed : load_data w c = Ok st0.

Lemma constructed_state :
  current_batch_index st0 = 0 /\
  total_batch_size st0 = Z.of_nat (length (img_ids st0)) / batch_size c.
Proof.
  unfold load_data in constructed. destruct (batch_size c =? 0); [discriminate|].
  injection constructed as <-. simpl. split; reflexivity.
Qed.

Lemma invariant_shuffle (st : State) :
  invariant c st0 st -> invariant c st0 (_on_epoch_end w st).
Proof.
  intros (Hp & Ht & Hd & Hc). unfold invariant, _on_epoch_end; simpl.
  pose proof (shuffle_permutes (shuffles st) (img_ids st)) as Hs.
  split; [eapply perm_trans; eassumption|].
  split; [assumption|]. split; [|assumption].
  rewrite <- (Permutation_length Hs). assumption.
Qed.

Lemma invariant_rollover (st : State) :
  invariant c st0 st -> invariant c st0 (rollover w st).
Proof.
  intros Hinv. unfold rollover.
  destruct (Z.leb_spec (total_batch_size st) (current_batch_index st)); [|assumption].
  apply invariant_shuffle. destruct Hinv as (Hp & Ht & Hd & Hc).
  unfold invariant; simpl. repeat split; try assumption; lia.
Qed.

Lemma invariant_call (st : State) :
  invariant c st0 st -> invariant c st0 (advance (rollover w st)).
Proof.
  intros Hinv. pose proof (invariant_rollover st Hinv) as (Hp & Ht & Hd & Hc).
  unfold invariant, advance; simpl. repeat split; try assumption.
  - unfold rollover in *.
    destruct (Z.leb_spec (total_batch_size st) (current_batch_index st));
      simpl in *; lia.
  - unfold rollover in *. destruct Hinv as (_ & Ht' & _ & Hc').
    destruct (Z.leb_spec (total_batch_size st) (current_batch_index st));
      simpl in *; lia.
Qed.

Lemma invariant_reachable (st : State) :
  reachable w st0 st -> invariant c st0 st.
Proof.
  induction 1 as [|st Hr IH|st Hr IH|st Hr IH].
  - destruct constructed_state as [Hc0 Ht0].
    unfold invariant. repeat split; try lia. apply Permutation_refl.
  - now apply invariant_shuffle.
  - now apply invariant_rollover.
  - now apply invariant_call.
Qed.

(** C10, amended.  In every state in which a call can start after
    construction, after every [_on_epoch_end] and after every returning call
    of [next_batch], the id sequence is a permutation of the constructed one
    and [total_batch_size] is unchanged and equals
    [len(img_ids) // batch_size]; when that boundary is at least 1, the cursor
    lies between 0 and the boundary. *)
Theorem ids_boundary_cursor_preserved (st : State) :
  reachable w st0 st ->
  invariant c st0 st /\
  invariant c st0 (_on_epoch_end w st) /\
  (forall fuel out st', next_batch w c fuel st = Ok (out, st') -> invariant c st0 st').
Proof.
  intros Hr. split; [|split].
  - now apply invariant_reachable.
  - apply invariant_reachable. now apply reach_shuffle.
  - intros fuel out st' H. apply invariant_reachable.
    eapply next_batch_reachable; eassumption.
Qed.

End Epochs.

(** ** Slice assignment *)

Lemma nth_repeat_any {A : Type} (a d : A) (n i : nat) :
  nth i (repeat a n) d = if (i <? n)%nat then a else d.
Proof.
  revert i; induction n as [|n IH]; intros [|i]; simpl; try reflexivity.
  rewrite IH. reflexivity.
Qed.

Lemma nth_map_lt {A B : Type} (f : A -> B) (l : list A) (d : A) (d' : B) (i : nat) :
  (i < length l)%nat -> nth i (map f l) d' = f (nth i l d).
Proof.
  intros Hi. rewrite (nth_indep (map f l) d' (f d)) by (now rewrite length_map).
  apply map_nth.
Qed.

Lemma overlay_length {A : Type} (n : nat) (zero : A) (l : list A) :
  length (overlay n zero l) = n.
Proof.
  unfold overlay. rewrite length_firstn, length_app, repeat_length. lia.
Qed.

Lemma nth_overlay {A : Type} (n : nat) (zero d : A) (l : list A) (i : nat) :
  (i < n)%nat ->
  nth i (overlay n zero l) d = if (i <? length l)%nat then nth i l d else zero.
Proof.
  intros Hi. unfold overlay. rewrite nth_firstn.
  destruct (Nat.ltb_spec i n) as [_|]; [|lia].
  destruct (Nat.ltb_spec i (length l)) as [Hl|Hl].
  - now apply app_nth1.
  - rewrite app_nth2 by lia. rewrite nth_repeat_any.
    destruct (Nat.ltb_spec (i - length l) (n - length l)); [reflexivity | lia].
Qed.

Lemma Forall_firstn_of {A : Type} (P : A -> Prop) (n : nat) (l : list A) :
  Forall P l -> Forall P (firstn n l).
Proof.
  intros H. revert n. induction H as [|a l Ha Hl IH]; intros [|n]; simpl;
    constructor; auto.
Qed.

Lemma bcast_px_length (c : nat) (px : list Z) : length (bcast_px c px) = c.
Proof.
  unfold bcast_px. destruct (Nat.eqb_spec (length px) c); [assumption|].
  apply repeat_length.
Qed.

Lemma overlay_regular (t0 t1 t2 : nat) (v : image) :
  regular3 t0 t1 t2
    (overlay t0 (repeat (repeat 0 t2) t1)
       (map (fun row => overlay t1 (repeat 0 t2) (map (bcast_px t2) row)) v)).
Proof.
  split; [apply overlay_length|].
  unfold overlay at 1. apply Forall_firstn_of. apply Forall_app. split.
  - apply Forall_map. apply Forall_forall. intros row _. split.
    + apply overlay_length.
    + unfold overlay. apply Forall_firstn_of. apply Forall_app. split.
      * apply Forall_map. apply Forall_forall. intros px _. apply bcast_px_length.
      * apply Forall_forall. intros px Hin. apply repeat_spec in Hin. subst.
        apply repeat_length.
  - apply Forall_forall. intros row Hin. apply repeat_spec in Hin. subst. split.
    + apply repeat_length.
    + apply Forall_forall. intros px Hin. apply repeat_spec in Hin. subst.
      apply repeat_length.
Qed.

Lemma overlay_plane_regular (t0 t1 t2 n : nat) (rows : matrix Z) :
  regular3 t0 t1 t2
    (overlay t0 (repeat (repeat 0 t2) t1)
       (repeat (overlay t1 (repeat 0 t2) (map (bcast_px t2) rows)) n)).
Proof.
  replace (repeat (overlay t1 (repeat 0 t2) (map (bcast_px t2) rows)) n)
    with (map (fun row => overlay t1 (repeat 0 t2) (map (bcast_px t2) row))
              (repeat rows n)).
  - apply overlay_regular.
  - induction n as [|n IH]; cbn [repeat map]; [reflexivity | now rewrite IH].
Qed.

Lemma regular3_shape (h w c : nat) (im : image) :
  regular3 h w c im -> (0 < h)%nat -> (0 < w)%nat -> np_shape3 im = (h, w, c).
Proof.
  intros [Hlen Hrows] Hh Hw. unfold np_shape3.
  destruct im as [|row im]; simpl in *; [lia|].
  inversion Hrows as [|? ? [Hrow Hpx] _]; subst.
  destruct row as [|px row]; simpl in *; [lia|].
  inversion Hpx; subst. reflexivity.
Qed.

Lemma regular3_nth (h w c : nat) (im : image) (i j : nat) :
  regular3 h w c im -> (i < h)%nat -> (j < w)%nat ->
  length (nth i im []) = w /\ length (nth j (nth i im []) []) = c.
Proof.
  intros [Hlen Hrows] Hi Hj.
  rewrite Forall_forall in Hrows.
  destruct (Hrows (nth i im [])) as [Hrow Hpx]; [apply nth_In; lia|].
  split; [assumption|].
  rewrite Forall_forall in Hpx. apply Hpx. apply nth_In. lia.
Qed.

Lemma overlay_get3 (t0 t1 t2 h w : nat) (v : image) (i j k : nat) :
  regular3 h w t2 v ->
  (i < t0)%nat -> (j < t1)%nat -> (k < t2)%nat ->
  get3 (overlay t0 (repeat (repeat 0 t2) t1)
          (map (fun row => overlay t1 (repeat 0 t2) (map (bcast_px t2) row)) v)) i j k
  = if (i <? h)%nat && (j <? w)%nat then get3 v i j k else 0.
Proof.
  intros Hreg Hi Hj Hk. unfold get3.
  rewrite (nth_overlay t0 _ [] _ i Hi), length_map.
  destruct Hreg as [Hlen Hrows]. rewrite Hlen.
  destruct (Nat.ltb_spec i h) as [Hih|Hih]; simpl.
  - rewrite (nth_map_lt _ v [] [] i) by lia.
    rewrite (nth_overlay t1 _ [] _ j Hj), length_map.
    destruct (Nat.ltb_spec j w) as [Hjw|Hjw].
    + destruct (regular3_nth h w t2 v i j (conj Hlen Hrows) Hih Hjw) as [Hrow Hpx].
      rewrite Hrow. destruct (Nat.ltb_spec j w); [|lia].
      rewrite (nth_map_lt _ (nth i v []) [] [] j) by lia.
      unfold bcast_px. rewrite Hpx, Nat.eqb_refl. reflexivity.
    + assert (Hrow : length (nth i v []) = w).
      { rewrite Forall_forall in Hrows. apply Hrows. apply nth_In. lia. }
      rewrite Hrow. destruct (Nat.ltb_spec j w); [lia|].
      rewrite nth_repeat_any. now destruct (k <? t2)%nat.
  - rewrite nth_repeat_any. destruct (Nat.ltb_spec j t1); [|lia].
    rewrite nth_repeat_any. now destruct (k <? t2)%nat.
Qed.

(** ** _resize_im: the image buffer *)

(** C6, amended.  When the resized image has the target's channel count and
    is no taller and no wider than the target, [_resize_im] returns a buffer
    of exactly the target shape that holds the resized image at the top-left
    origin and zero everywhere else. *)
Theorem resize_im_blob (w : World) (c : Config) (origin_im : image)
        (bboxes : list box) (s : float) (r : image) (t0 t1 t2 h' w' : nat) :
  img_shape c = (t0, t1, t2) ->
  scale_for t0 (Z.max (Z.of_nat (length origin_im))
                      (Z.of_nat (length (hd [] origin_im)))) = Ok s ->
  cv2_resize w s origin_im = Ok (Resized3 r) ->
  regular3 h' w' t2 r ->
  (0 < h' <= t0)%nat -> (0 < w' <= t1)%nat ->
  exists blob,
    _resize_im w c origin_im bboxes = Ok (blob, resize_boxes w s bboxes) /\
    regular3 t0 t1 t2 blob /\
    forall i j k, (i < t0)%nat -> (j < t1)%nat -> (k < t2)%nat ->
      get3 blob i j k = if (i <? h')%nat && (j <? w')%nat then get3 r i j k else 0.
Proof.
  intros Hshape Hs Hr Hreg Hh Hw.
  exists (overlay t0 (repeat (repeat 0 t2) t1)
            (map (fun row => overlay t1 (repeat 0 t2) (map (bcast_px t2) row)) r)).
  split; [|split].
  - unfold _resize_im, np_shape3. rewrite Hshape. cbn [fst snd].
    rewrite Hs. cbn [bind]. rewrite Hr. cbn [bind].
    unfold assign_blob3. rewrite (regular3_shape h' w' t2 r Hreg) by lia.
    unfold fits, bcast.
    destruct (Nat.leb_spec h' t0); [|lia].
    destruct (Nat.leb_spec w' t1); [|lia].
    rewrite Nat.eqb_refl. cbn [orb andb bind]. reflexivity.
  - apply overlay_regular.
  - intros i j k Hi Hj Hk. now apply overlay_get3.
Qed.

(** ** _resize_im: the boxes *)

Lemma float_den_pos (f : float) : 0 < float_den f.
Proof.
  destruct f; simpl; try lia; apply Z.pow_pos_nonneg; lia.
Qed.

Lemma float_trunc_floor (f : float) :
  0 <= float_num f -> float_trunc f = float_floor f.
Proof.
  intros H. unfold float_trunc, float_floor.
  apply Z.quot_div_nonneg; [assumption | apply float_den_pos].
Qed.

Lemma int16_fits (z : Z) : in_int16 z = true -> int16 z = z.
Proof.
  unfold in_int16, int16, wrap. intros H.
  apply andb_prop in H. destruct H as [H1 H2].
  apply Z.leb_le in H1. apply Z.leb_le in H2.
  change (2 ^ (16 - 1)) with 32768. change (2 ^ 16) with 65536.
  rewrite Z.mod_small by lia. lia.
Qed.

Lemma in_int16_int32 (z : Z) : in_int16 z = true -> in_int32 z = true.
Proof.
  unfold in_int16, in_int32. intros H.
  apply andb_prop in H. destruct H as [H1 H2].
  apply Z.leb_le in H1. apply Z.leb_le in H2.
  apply andb_true_intro. split; [apply Z.leb_le | apply Z.ltb_lt]; cbn; lia.
Qed.

Lemma scale_coord_scaled (w : World) (s : float) (x : Z) :
  fits_int16 s x -> scaled s x (scale_coord w s x).
Proof.
  unfold fits_int16, scaled, scale_coord, cast_float_int16. cbv zeta.
  intros [Hf Hi]. rewrite Hf, (in_int16_int32 _ Hi). cbn [andb].
  rewrite (int16_fits _ Hi). auto.
Qed.

Lemma box_map_scaled (w : World) (s : float) (b : box) :
  box_all (fits_int16 s) b -> box_scaled s b (box_map (scale_coord w s) b).
Proof.
  destruct b as [[[x0 y0] x1] y1]. unfold box_all, box_scaled, box_map.
  intros (H0 & H1 & H2 & H3). repeat split; now apply scale_coord_scaled.
Qed.

(** C7, amended.  [resize_boxes] returns one box per box of the input, in
    the same order.  When every product coordinate * scale is finite and its
    truncation fits an int16, each of the four coordinates is the binary64
    product cut toward zero, which is its floor whenever the product is not
    negative.  Boxes whose coordinates are out of order go through the same
    way. *)
Theorem resize_boxes_truncates (w : World) (s : float) (bboxes : list box) :
  (Forall (box_all (fits_int16 s)) bboxes ->
   Forall2 (box_scaled s) bboxes (resize_boxes w s bboxes)) /\
  length (resize_boxes w s bboxes) = length bboxes /\
  (forall x x', scaled s x x' ->
     0 <= float_num (fmul (float_of_int x) s) ->
     x' = float_floor (fmul (float_of_int x) s)).
Proof.
  split; [|split].
  - unfold resize_boxes. induction 1 as [|b t Hb _ IH]; cbn [map]; constructor.
    + now apply box_map_scaled.
    + exact IH.
  - apply length_map.
  - intros x x' (_ & _ & ->) Hpos. now apply float_trunc_floor.
Qed.

(** ** _data_generation *)

Lemma mapM_total {A B : Type} (f : A -> result B) (l : list A) :
  Forall (fun a => exists b, f a = Ok b) l -> exists l', mapM f l = Ok l'.
Proof.
  induction 1 as [|a t [b Hb] _ [t' Ht']]; simpl.
  - eauto.
  - rewrite Hb; simpl. rewrite Ht'; simpl. eauto.
Qed.

Lemma py_int_finite (f : float) : is_finite f = true -> py_int f = Ok (float_trunc f).
Proof.
  destruct f; simpl; intros H; try discriminate; reflexivity.
Qed.

Lemma ann_box_finite (a : Ann.t) : bbox_finite a -> exists b, ann_box a = Ok b.
Proof.
  unfold bbox_finite, ann_box. destruct (Ann.bbox a) as [[[bx by_] bw] bh].
  intros (H1 & H2 & H3 & H4).
  rewrite (py_int_finite _ H1); cbn [bind].
  rewrite (py_int_finite _ H2); cbn [bind].
  rewrite (py_int_finite _ H3); cbn [bind].
  rewrite (py_int_finite _ H4); cbn [bind]. eauto.
Qed.

Lemma np_int_Ok (bits z z' : Z) : np_int bits z = Ok z' -> z' = wrap bits z.
Proof.
  unfold np_int. destruct (in_c_long z); [|discriminate].
  intros H. now injection H as <-.
Qed.

Lemma mapM_np_int (bits : Z) (l l' : list Z) :
  mapM (np_int bits) l = Ok l' -> l' = map (wrap bits) l.
Proof.
  revert l'. induction l as [|z t IH]; cbn [mapM map]; intros l' H.
  - now injection H as <-.
  - apply bind_Ok in H. destruct H as (z' & Hz & H).
    apply bind_Ok in H. destruct H as (t' & Ht & H). injection H as <-.
    now rewrite (np_int_Ok _ _ _ Hz), (IH _ Ht).
Qed.

Lemma box_np_int (b b' : box) : box_mapM (np_int 16) b = Ok b' -> b' = box_map int16 b.
Proof.
  destruct b as [[[x0 y0] x1] y1]. unfold box_mapM, box_map. intros H.
  apply bind_Ok in H. destruct H as (a0 & H0 & H).
  apply bind_Ok in H. destruct H as (a1 & H1 & H).
  apply bind_Ok in H. destruct H as (a2 & H2 & H).
  apply bind_Ok in H. destruct H as (a3 & H3 & H). injection H as <-.
  now rewrite (np_int_Ok _ _ _ H0), (np_int_Ok _ _ _ H1), (np_int_Ok _ _ _ H2),
    (np_int_Ok _ _ _ H3).
Qed.

Lemma mapM_box_np_int (l l' : list box) :
  mapM (box_mapM (np_int 16)) l = Ok l' -> l' = map (box_map int16) l.
Proof.
  revert l'. induction l as [|b t IH]; cbn [mapM map]; intros l' H.
  - now injection H as <-.
  - apply bind_Ok in H. destruct H as (b' & Hb & H).
    apply bind_Ok in H. destruct H as (t' & Ht & H). injection H as <-.
    now rewrite (box_np_int _ _ Hb), (IH _ Ht).
Qed.

(** The fields of a returned sample, read off the text of the method. *)
Lemma data_generation_fields (w : World) (c : Config) (id : Z) (s : Sample.t) :
  _data_generation w c id = Ok s ->
  exists per,
    mapM (per_ann c) (getAnns w c id) = Ok per /\
    (if include_keypoint c
     then keypoints_int8 (somes (map snd per)) = Ok (Sample.keypoints s)
     else Sample.keypoints s = []) /\
    (if include_mask c
     then exists gt,
         _resize_mask w c (somes (map (fun p => snd (fst p)) per))
         = Ok (Sample.masks s, gt) /\
         (fetch w id = Ok Undecoded -> Sample.bboxes s = gt)
     else Sample.masks s = [] /\
          (fetch w id = Ok Undecoded -> Sample.bboxes s = [])) /\
    (fetch w id = Ok Undecoded -> Sample.img s = NoImg /\ Sample.labels s = []).
Proof.
  unfold _data_generation. intros H. inv_bind H. exists a. split; [assumption|].
  inv_bind H. destruct a0 as [[om ob] lb]. inv_bind H.
  assert (Hk : if include_keypoint c
               then keypoints_int8 (somes (map snd a)) = Ok a0 else a0 = []).
  { destruct (include_keypoint c); [assumption | now injection E1 as <-]. }
  assert (Hm : if include_mask c
               then exists gt,
                   _resize_mask w c (somes (map (fun p => snd (fst p)) a)) = Ok (om, gt)
                   /\ ob = gt
               else om = [] /\ ob = []).
  { destruct (include_mask c).
    - inv_bind E0. destruct a1 as [mr gt]. injection E0 as <- <- _. eauto.
    - injection E0 as <- <- _. auto. }
  clear E0 E1.
  apply bind_Ok in H. destruct H as (f & Hf & H). rewrite Hf.
  destruct f as [|px|px].
  - injection H as <-. simpl. split; [assumption|]. split; [|auto].
    destruct (include_mask c).
    + destruct Hm as (gt & Hgt & ->). eauto.
    + destruct Hm as [-> ->]. auto.
  - inv_bind H. inv_bind H. inv_bind H. destruct a3 as [ir br]. injection H as <-. simpl.
    split; [assumption|]. split; [|intros; discriminate].
    destruct (include_mask c).
    + destruct Hm as (gt & Hgt & ->). exists gt. split; [assumption | intros; discriminate].
    + destruct Hm as [-> ->]. split; [reflexivity | intros; discriminate].
  - inv_bind H. inv_bind H. inv_bind H. destruct a3 as [ir br]. injection H as <-. simpl.
    split; [assumption|]. split; [|intros; discriminate].
    destruct (include_mask c).
    + destruct Hm as (gt & Hgt & ->). exists gt. split; [assumption | intros; discriminate].
    + destruct Hm as [-> ->]. split; [reflexivity | intros; discriminate].
Qed.

(** C4, amended.  When the fetched image has fewer than two dimensions, a
    returned sample has an empty [img] and empty [labels]; its [bboxes] and
    [masks] are empty when masks are not included, and its [keypoints] are
    empty when keypoints are not included.  With neither included, and every
    annotation box convertible by [int], the call returns the sample with all
    five fields empty. *)
Theorem undecoded_sample (w : World) (c : Config) (id : Z) :
  fetch w id = Ok Undecoded ->
  (forall s, _data_generation w c id = Ok s ->
     Sample.img s = NoImg /\ Sample.labels s = [] /\
     (include_mask c = false -> Sample.bboxes s = [] /\ Sample.masks s = []) /\
     (include_keypoint c = false -> Sample.keypoints s = [])) /\
  (include_mask c = false -> include_keypoint c = false ->
   Forall bbox_finite (getAnns w c id) ->
   _data_generation w c id = Ok (Sample.mk NoImg [] [] [] [])).
Proof.
  intros Hread. split.
  - intros s H. apply data_generation_fields in H.
    destruct H as (per & _ & Hk & Hm & Hi). destruct (Hi Hread) as [-> ->].
    split; [reflexivity|]. split; [reflexivity|]. split.
    + intros Hoff. rewrite Hoff in Hm. destruct Hm as [-> Hb]. auto.
    + intros Hoff. now rewrite Hoff in Hk.
  - intros Hm Hk Hfin.
    assert (Hper : exists per, mapM (per_ann c) (getAnns w c id) = Ok per).
    { apply mapM_total. eapply Forall_impl; [|exact Hfin].
      intros a Ha. destruct (ann_box_finite a Ha) as [b Hb].
      unfold per_ann. rewrite Hb, Hk. simpl. eauto. }
    destruct Hper as [per Hper].
    unfold _data_generation. rewrite Hper, Hm, Hk, Hread. reflexivity.
Qed.

(** With masks included and a decoded colour image, the boxes of the sample
    are the mask-derived boxes passed through [resize_boxes] with the image
    scale of [_resize_im]. *)
Lemma data_generation_mask_boxes (w : World) (c : Config) (id : Z) (s : Sample.t)
      (px : image) :
  include_mask c = true ->
  fetch w id = Ok (Color px) ->
  _data_generation w c id = Ok s ->
  exists origin_masks gt_boxes im_scale,
    _resize_mask w c origin_masks = Ok (Sample.masks s, gt_boxes) /\
    scale_for (fst (fst (img_shape c)))
      (Z.max (Z.of_nat (length px)) (Z.of_nat (length (hd [] px)))) = Ok im_scale /\
    resize_boxes w im_scale (map (box_map int16) gt_boxes) = Sample.bboxes s.
Proof.
  intros Hm Hread. unfold _data_generation. rewrite Hm, Hread. intros H.
  apply bind_Ok in H. destruct H as (per & _ & H).
  apply bind_Ok in H. destruct H as ([[om ob] lb] & Hrm & H).
  apply bind_Ok in Hrm. destruct Hrm as ([mr gt] & Hrm & Heq).
  injection Heq as <- <- <-.
  apply bind_Ok in H. destruct H as (ok & _ & H).
  cbn [bind] in H.
  apply bind_Ok in H. destruct H as (ll & _ & H).
  apply bind_Ok in H. destruct H as (bb & Hbb & H).
  apply mapM_box_np_int in Hbb. subst bb.
  apply bind_Ok in H. destruct H as ([ir br] & Hr & H). injection H as <-.
  cbn [Sample.masks Sample.bboxes].
  unfold _resize_im, np_shape3 in Hr.
  apply bind_Ok in Hr. destruct Hr as (sc & Hsc & Hr).
  apply bind_Ok in Hr. destruct Hr as (r & _ & Hr).
  apply bind_Ok in Hr. destruct Hr as (blob & _ & Hr). injection Hr as _ <-.
  eauto 6.
Qed.

(** ** _resize_mask: the derived box *)

Lemma nonzero_from_zero (j : Z) (row : list Z) :
  Forall (fun v => v = 0) row -> nonzero_from j row = [].
Proof.
  intros H. revert j. induction H as [|v t -> _ IH]; intros j; simpl; auto.
Qed.

Lemma where_from_zero (i : Z) (m : matrix Z) :
  Forall (Forall (fun v => v = 0)) m -> where_from i m = [].
Proof.
  intros H. revert i. induction H as [|r t Hr _ IH]; intros i; simpl; auto.
  rewrite (nonzero_from_zero 0 r Hr), IH. reflexivity.
Qed.

(** A binarised mask without a set pixel has no box: [np.min] raises. *)
Lemma mask_bdbox_no_pixel (m : matrix Z) :
  Forall (Forall (fun v => v = 0)) m -> mask_bdbox m = Raise ValueError.
Proof.
  intros H. unfold mask_bdbox, np_where.
  rewrite (where_from_zero 0 m H). reflexivity.
Qed.

Lemma nonzero_from_range (j : Z) (row : list Z) :
  Forall (fun k => j <= k < j + Z.of_nat (length row)) (nonzero_from j row).
Proof.
  revert j. induction row as [|v t IH]; intros j; simpl nonzero_from; [constructor|].
  assert (Ht : Forall (fun k => j <= k < j + Z.of_nat (length (v :: t)))
                      (nonzero_from (j + 1) t)).
  { eapply Forall_impl; [|apply IH]. simpl length. intros k Hk. cbv beta in Hk. lia. }
  destruct (v =? 0); [assumption|]. constructor; [simpl length; lia | assumption].
Qed.

Lemma where_from_range (w : nat) (i : Z) (m : matrix Z) :
  Forall (fun r => length r = w) m ->
  Forall (fun p => i <= fst p < i + Z.of_nat (length m) /\ 0 <= snd p < Z.of_nat w)
         (where_from i m).
Proof.
  intros H. revert i. induction H as [|r t Hr _ IH]; intros i; simpl where_from.
  - constructor.
  - apply Forall_app. split.
    + apply Forall_map. eapply Forall_impl; [|apply (nonzero_from_range 0 r)].
      intros k Hk. cbv beta in Hk. simpl. rewrite Hr in Hk. simpl length. lia.
    + eapply Forall_impl; [|apply (IH (i + 1))].
      intros p Hp. cbv beta in Hp. simpl length. lia.
Qed.

Lemma fold_min_spec (t : list Z) (x : Z) :
  In (fold_left Z.min t x) (x :: t) /\
  forall y, In y (x :: t) -> fold_left Z.min t x <= y.
Proof.
  revert x. induction t as [|a t IH]; intros x; simpl.
  - split; [auto | intros y [<-|[]]; lia].
  - destruct (IH (Z.min x a)) as [Hin Hle]. split.
    + destruct Hin as [Heq|Hin]; [|auto].
      rewrite <- Heq. destruct (Z.min_spec x a) as [[_ ->]|[_ ->]]; auto.
    + intros y Hy.
      assert (Hm : fold_left Z.min t (Z.min x a) <= Z.min x a) by (apply Hle; left; reflexivity).
      destruct Hy as [<-|[<-|Hy]]; [lia | lia | apply Hle; right; assumption].
Qed.

Lemma fold_max_spec (t : list Z) (x : Z) :
  In (fold_left Z.max t x) (x :: t) /\
  forall y, In y (x :: t) -> y <= fold_left Z.max t x.
Proof.
  revert x. induction t as [|a t IH]; intros x; simpl.
  - split; [auto | intros y [<-|[]]; lia].
  - destruct (IH (Z.max x a)) as [Hin Hle]. split.
    + destruct Hin as [Heq|Hin]; [|auto].
      rewrite <- Heq. destruct (Z.max_spec x a) as [[_ ->]|[_ ->]]; auto.
    + intros y Hy.
      assert (Hm : Z.max x a <= fold_left Z.max t (Z.max x a)) by (apply Hle; left; reflexivity).
      destruct Hy as [<-|[<-|Hy]]; [lia | lia | apply Hle; right; assumption].
Qed.

(** A mask with a set pixel gets the extents of its set pixels, which lie
    within the mask. *)
Lemma mask_bdbox_bounds (h w : nat) (m : matrix Z) (x0 y0 x1 y1 : Z) :
  length m = h -> Forall (fun r => length r = w) m ->
  mask_bdbox m = Ok (x0, y0, x1, y1) ->
  0 <= x0 <= x1 /\ x1 < Z.of_nat w /\ 0 <= y0 <= y1 /\ y1 < Z.of_nat h.
Proof.
  intros Hh Hw. unfold mask_bdbox, np_shape2, np_where.
  pose proof (where_from_range w 0 m Hw) as Hr. rewrite Hh in Hr.
  destruct (where_from 0 m) as [|[i j] idx] eqn:Hidx; [discriminate|].
  cbn [map fst snd np_min np_max bind]. intros H. injection H as <- <- <- <-.
  assert (Hrows : Forall (fun k => 0 <= k < Z.of_nat h) (i :: map fst idx)).
  { change (i :: map fst idx) with (map fst ((i, j) :: idx)).
    apply Forall_map. eapply Forall_impl; [|exact Hr]. intros p Hp.
    cbv beta in Hp. lia. }
  assert (Hcols : Forall (fun k => 0 <= k < Z.of_nat w) (j :: map snd idx)).
  { change (j :: map snd idx) with (map snd ((i, j) :: idx)).
    apply Forall_map. eapply Forall_impl; [|exact Hr]. intros p Hp.
    cbv beta in Hp. lia. }
  rewrite Forall_forall in Hrows, Hcols.
  destruct (fold_min_spec (map snd idx) j) as [Hc1 Hc2].
  destruct (fold_max_spec (map snd idx) j) as [Hc3 Hc4].
  destruct (fold_min_spec (map fst idx) i) as [Hr1 Hr2].
  destruct (fold_max_spec (map fst idx) i) as [Hr3 Hr4].
  pose proof (Hcols _ Hc1). pose proof (Hcols _ Hc3).
  pose proof (Hrows _ Hr1). pose proof (Hrows _ Hr3).
  pose proof (Hc2 _ Hc3). pose proof (Hr2 _ Hr3).
  assert (Hhd : length (hd [] m) = w).
  { destruct m as [|r m']; [discriminate|]. now inversion Hw. }
  rewrite Hhd, Hh.
  destruct (Z.leb_spec 0 (fold_left Z.min (map snd idx) j)); [|lia].
  destruct (Z.leb_spec 0 (fold_left Z.min (map fst idx) i)); [|lia].
  destruct (Z.leb_spec (fold_left Z.max (map snd idx) j) (Z.of_nat w));
    destruct (Z.leb_spec (fold_left Z.max (map fst idx) i) (Z.of_nat h)); lia.
Qed.

(** ** Keypoints *)



Lemma int16_small (v : Z) : -32768 <= v <= 32767 -> int16 v = v.
Proof.
  intros H. unfold int16, wrap.
  change (2 ^ (16 - 1)) with 32768. change (2 ^ 16) with 65536.
  rewrite Z.mod_small by lia. lia.
Qed.


Lemma map_id_ext {A : Type} (f : A -> A) (l : list A) :
  (forall a, In a l -> f a = a) -> map f l = l.
Proof.
  induction l as [|a t IH]; simpl; intros H; [reflexivity|].
  rewrite H by auto. f_equal. apply IH. auto.
Qed.






(** ** next_batch: the instance axis *)

Lemma fit_to_length {A : Type} (n : nat) (zero : A) (l : list A) :
  length (fit_to n zero l) = n.
Proof.
  unfold fit_to. rewrite length_app, length_firstn, repeat_length. lia.
Qed.

Lemma resize_im_boxes_length (w : World) (c : Config) (im ir : image)
      (bb br : list box) :
  _resize_im w c im bb = Ok (ir, br) -> length br = length bb.
Proof.
  unfold _resize_im. destruct (np_shape3 im) as [[h0 w0] c0]. intros H.
  inv_bind H. inv_bind H. inv_bind H. injection H as _ <-.
  apply length_map.
Qed.

Lemma resize_mask_boxes_length (w : World) (c : Config) (ms mr : list (matrix Z))
      (gt : list box) :
  _resize_mask w c ms = Ok (mr, gt) -> length gt = length ms.
Proof.
  unfold _resize_mask. intros H. inv_bind H. inv_bind H. inv_bind H.
  injection H as _ <-. rewrite !length_map.
  match goal with
  | Hb : mapM _ _ = Ok _ |- _ => exact (mapM_length _ _ _ Hb)
  end.
Qed.

Lemma per_ann_masks_length (c : Config) (anns : list Ann.t)
      (per : list (box * Z * option (matrix Z) * option (list triple))) :
  include_mask c = true ->
  mapM (per_ann c) anns = Ok per ->
  length (somes (map (fun p => snd (fst p)) per)) = length per.
Proof.
  intros Hm. revert per. induction anns as [|a t IH]; simpl; intros per H.
  - injection H as <-. reflexivity.
  - inv_bind H. inv_bind H. injection H as <-. specialize (IH _ E0).
    unfold per_ann in E.
    apply bind_Ok in E. destruct E as (b & _ & E).
    apply bind_Ok in E. destruct E as (kp & _ & E).
    injection E as <-. rewrite Hm. simpl. now rewrite IH.
Qed.

(** A sample whose image decoded has as many boxes as labels. *)
Lemma decoded_sample_counts (w : World) (c : Config) (id : Z) (s : Sample.t) :
  _data_generation w c id = Ok s ->
  Sample.img s <> NoImg ->
  length (Sample.bboxes s) = length (Sample.labels s).
Proof.
  unfold _data_generation. intros H Himg.
  apply bind_Ok in H. destruct H as (per & Hper & H).
  apply bind_Ok in H. destruct H as ([[om ob] lb] & Hm & H).
  apply bind_Ok in H. destruct H as (ok & _ & H).
  assert (Hlb : length lb = length per).
  { destruct (include_mask c) eqn:Hflag.
    - apply bind_Ok in Hm. destruct Hm as ([mr gt] & Hrm & Hm).
      injection Hm as _ _ <-.
      rewrite (resize_mask_boxes_length _ _ _ _ _ Hrm).
      now apply (per_ann_masks_length c (getAnns w c id)).
    - injection Hm as _ _ <-. now rewrite length_map. }
  apply bind_Ok in H. destruct H as (f & _ & H).
  destruct f as [|px|px].
  - injection H as <-. now contradiction Himg.
  - apply bind_Ok in H. destruct H as (ll & Hll & H).
    apply bind_Ok in H. destruct H as (bb & Hbb & H).
    apply bind_Ok in H. destruct H as ([ir br] & Hr & H). injection H as <-.
    simpl. apply resize_im_boxes_length in Hr.
    rewrite Hr, (mapM_length _ _ _ Hbb), (mapM_length _ _ _ Hll), length_map.
    assumption.
  - apply bind_Ok in H. destruct H as (ll & Hll & H).
    apply bind_Ok in H. destruct H as (bb & Hbb & H).
    apply bind_Ok in H. destruct H as ([ir br] & Hr & H). injection H as <-.
    simpl. apply resize_im_boxes_length in Hr.
    rewrite Hr, (mapM_length _ _ _ Hbb), (mapM_length _ _ _ Hll), length_map.
    assumption.
Qed.

Lemma fit_to_long {A : Type} (n : nat) (zero : A) (l : list A) :
  (n <= length l)%nat -> fit_to n zero l = firstn n l.
Proof.
  intros H. unfold fit_to. replace (n - length l)%nat with 0%nat by lia.
  apply app_nil_r.
Qed.

Lemma fit_to_short {A : Type} (n : nat) (zero : A) (l : list A) :
  (length l <= n)%nat -> fit_to n zero l = l ++ repeat zero (n - length l).
Proof.
  intros H. unfold fit_to. now rewrite firstn_all2 by lia.
Qed.

Lemma pad_or_truncate_fit (c : Config) (data : Sample.t) (bb : list box) (ll : list Z) :
  0 <= max_instances c ->
  pad_or_truncate c data = Ok (bb, ll) ->
  ll = fit_to (Z.to_nat (max_instances c)) 0 (Sample.labels data) /\
  (length (Sample.bboxes data) = length (Sample.labels data) ->
   bb = fit_to (Z.to_nat (max_instances c)) zero_box (Sample.bboxes data)).
Proof.
  intros Hmax. unfold pad_or_truncate, py_take.
  destruct (Z.ltb_spec (max_instances c) 0) as [|_]; [lia|].
  destruct (Z.ltb_spec (max_instances c) (Z.of_nat (length (Sample.labels data))))
    as [Hlt|Hge].
  - destruct (Sample.bboxes data) as [|b0 bs] eqn:Hbb.
    + destruct (Sample.img data); discriminate.
    + intros H. injection H as <- <-. split.
      * now rewrite fit_to_long by lia.
      * intros Hlen. now rewrite fit_to_long by lia.
  - destruct (Sample.bboxes data) as [|b0 bs] eqn:Hbb; [discriminate|].
    intros H. injection H as <- <-. split.
    + rewrite fit_to_short by lia. f_equal. f_equal. lia.
    + intros Hlen. rewrite fit_to_short by lia. cbn [app]. do 3 f_equal. lia.
Qed.

Lemma batch_entries_padded (w : World) (c : Config) (ids : list Z)
      (entries : list (option (Sample.t * list box * list Z))) :
  mapM (batch_entry w c) ids = Ok entries ->
  Forall (fun e => (exists id, _data_generation w c id = Ok (fst (fst e))) /\
                   pad_or_truncate c (fst (fst e)) = Ok (snd (fst e), snd e))
         (somes entries).
Proof.
  revert entries. induction ids as [|id t IH]; simpl; intros entries H.
  - injection H as <-. constructor.
  - inv_bind H. inv_bind H. injection H as <-. specialize (IH _ E0).
    unfold batch_entry in E.
    apply bind_Ok in E. destruct E as (data & Hd & E).
    destruct (0 <? length (np_shape_img (Sample.img data)))%nat.
    + apply bind_Ok in E. destruct E as ([bb ll] & Hp & E). injection E as <-.
      simpl. constructor; [|assumption]. split; [eauto | assumption].
    + injection E as <-. simpl. assumption.
Qed.

Lemma np_stack_Ok {A : Type} (shape : A -> list nat) (cast : A -> A) (l l' : list A) :
  np_stack shape cast l = Ok l' -> l' = map cast l.
Proof.
  unfold np_stack. destruct (homogeneous shape l); intros H; [|discriminate].
  now injection H as <-.
Qed.

Lemma kept_labels_fit (w : World) (c : Config)
      (kept : list (Sample.t * list box * list Z)) :
  0 <= max_instances c ->
  Forall (fun e => (exists id, _data_generation w c id = Ok (fst (fst e))) /\
                   pad_or_truncate c (fst (fst e)) = Ok (snd (fst e), snd e)) kept ->
  map (map int8) (map snd kept)
  = map (fun s => map int8 (fit_to (Z.to_nat (max_instances c)) 0 (Sample.labels s)))
        (map (fun e => fst (fst e)) kept).
Proof.
  intros Hmax Hent. rewrite !map_map.
  induction Hent as [|e t [_ Hp] _ IHt]; simpl; [reflexivity|].
  f_equal; [|exact IHt].
  destruct e as [[data b] l]. simpl in *.
  now destruct (pad_or_truncate_fit c data b l Hmax Hp) as [-> _].
Qed.

Lemma kept_boxes_fit (w : World) (c : Config)
      (kept : list (Sample.t * list box * list Z)) :
  0 <= max_instances c ->
  Forall (fun e => (exists id, _data_generation w c id = Ok (fst (fst e))) /\
                   pad_or_truncate c (fst (fst e)) = Ok (snd (fst e), snd e)) kept ->
  Forall (fun s => Sample.img s <> NoImg) (map (fun e => fst (fst e)) kept) ->
  map (map (box_map int16)) (map (fun e => snd (fst e)) kept)
  = map (fun s => map (box_map int16)
                      (fit_to (Z.to_nat (max_instances c)) zero_box (Sample.bboxes s)))
        (map (fun e => fst (fst e)) kept).
Proof.
  intros Hmax Hent Hdec. rewrite !map_map. rewrite Forall_map in Hdec.
  induction Hent as [|e t [[id Hid] Hp] _ IHt]; simpl; [reflexivity|].
  inversion Hdec as [|? ? Himg Hdec']; subst.
  f_equal; [|exact (IHt Hdec')].
  destruct e as [[data b] l]. simpl in *.
  destruct (pad_or_truncate_fit c data b l Hmax Hp) as [_ Hb].
  rewrite Hb; [reflexivity|].
  exact (decoded_sample_counts w c id data Hid Himg).
Qed.

(** C3, amended.  In a returned batch the labels of every sample are the
    sample's first [max_instances] labels, or all of them followed by zeros,
    so there are exactly [max_instances] of them; the same holds for the
    boxes of the samples whose image decoded.  Masks and keypoints are
    stacked as [_data_generation] built them, with the stack's integer
    conversion and the sample's own number of instances. *)
Theorem boxes_labels_fit_max_instances (w : World) (c : Config) (fuel : nat)
        (st st' : State) (out : Batch.t) :
  0 <= max_instances c ->
  next_batch w c fuel st = Ok (out, st') ->
  let n := Z.to_nat (max_instances c) in
  exists samples,
    Forall (fun s => exists id, _data_generation w c id = Ok s) samples /\
    Batch.labels out = map (fun s => map int8 (fit_to n 0 (Sample.labels s))) samples /\
    Forall (fun l => length l = n) (Batch.labels out) /\
    (Forall (fun s => Sample.img s <> NoImg) samples ->
     Batch.bboxes out
     = map (fun s => map (box_map int16) (fit_to n zero_box (Sample.bboxes s)))
           samples /\
     Forall (fun b => length b = n) (Batch.bboxes out)) /\
    (include_mask c = true ->
     Batch.masks out = map (fun s => map (map (map int8)) (Sample.masks s)) samples) /\
    (include_keypoint c = true ->
     Batch.keypoints out
     = map (fun s => map (map (triple_map int16)) (Sample.keypoints s)) samples).
Proof.
  intros Hmax H n. revert st H.
  induction fuel as [|fuel IH]; intros st H; [discriminate|].
  cbn [next_batch] in H.
  apply bind_Ok in H. destruct H as (entries & Hent & H).
  destruct (Z.of_nat (length (somes entries)) <? batch_size c);
    [eapply IH; eassumption|].
  clear IH.
  apply bind_Ok in H. destruct H as (o & Hasm & H). injection H as <- _.
  apply batch_entries_padded in Hent.
  exists (map (fun e => fst (fst e)) (somes entries)).
  unfold assemble in Hasm.
  apply bind_Ok in Hasm. destruct Hasm as (bi & Hbi & Hasm).
  apply bind_Ok in Hasm. destruct Hasm as (bb & Hbb & Hasm).
  apply bind_Ok in Hasm. destruct Hasm as (bl & Hbl & Hasm).
  apply bind_Ok in Hasm. destruct Hasm as (bm & Hbm & Hasm).
  apply bind_Ok in Hasm. destruct Hasm as (bk & Hbk & Hasm).
  injection Hasm as <-. cbn [Batch.labels Batch.bboxes Batch.masks Batch.keypoints].
  apply np_stack_Ok in Hbb, Hbl, Hbm, Hbk. subst bb bl bm bk.
  pose proof (kept_labels_fit w c _ Hmax Hent) as Hlab. fold n in Hlab.
  split; [|split; [|split; [|split; [|split]]]].
  - apply Forall_map. eapply Forall_impl; [|exact Hent]. intros e [He _]. exact He.
  - exact Hlab.
  - rewrite Hlab. apply Forall_map. apply Forall_forall. intros s _.
    rewrite length_map. apply fit_to_length.
  - intros Hdec.
    pose proof (kept_boxes_fit w c _ Hmax Hent Hdec) as Hbox. fold n in Hbox.
    split; [exact Hbox|].
    rewrite Hbox. apply Forall_map. apply Forall_forall. intros s _.
    rewrite length_map. apply fit_to_length.
  - intros Hm. rewrite Hm. now rewrite !map_map.
  - intros Hk. rewrite Hk. now rewrite !map_map.
Qed.

(** * Further properties of the generator *)

(** ** load_data and the annotation lookup *)

Lemma lookup_In {A : Type} (k : Z) (l : list (Z * A)) (v : A) :
  lookup k l = Some v -> In (k, v) l.
Proof.
  induction l as [|[k' v'] t IH]; simpl; intros H; [discriminate|].
  destruct (Z.eqb_spec k' k) as [->|_].
  - injection H as <-. now left.
  - right. now apply IH.
Qed.

Lemma lookup_NoDup {A : Type} (k : Z) (l : list (Z * A)) (v : A) :
  NoDup (map fst l) -> In (k, v) l -> lookup k l = Some v.
Proof.
  induction l as [|[k' v'] t IH]; simpl; intros Hnd Hin; [contradiction|].
  inversion Hnd as [|? ? Hnotin Hnd']; subst.
  destruct Hin as [Heq|Hin].
  - injection Heq as -> ->. now rewrite Z.eqb_refl.
  - destruct (Z.eqb_spec k' k) as [->|_]; [|now apply IH].
    exfalso. apply Hnotin. change k with (fst (k, v)). now apply in_map.
Qed.

Lemma NoDup_map_fst_filter {A : Type} (f : Z * A -> bool) (l : list (Z * A)) :
  NoDup (map fst l) -> NoDup (map fst (filter f l)).
Proof.
  induction l as [|x t IH]; simpl; intros Hnd; [constructor|].
  inversion Hnd as [|? ? Hnotin Hnd']; subst.
  destruct (f x); simpl; [|now apply IH].
  constructor; [|now apply IH].
  intros Hin. apply Hnotin. apply in_map_iff in Hin.
  destruct Hin as (y & Hy & Hin). apply filter_In in Hin.
  rewrite <- Hy. apply in_map. tauto.
Qed.

Lemma nonempty_true {A : Type} (l : list A) : nonempty l = true <-> l <> [].
Proof.
  destruct l; simpl; split; intros H; congruence.
Qed.

(** The ids [load_data] selects from a store with distinct keys. *)
Lemma load_data_ids (w : World) (c : Config) (st : State) :
  NoDup (map fst (imgToAnns w)) ->
  load_data w c = Ok st ->
  NoDup (img_ids st) /\
  forall id, In id (img_ids st) <-> getAnns w c id <> [].
Proof.
  intros Hnd H. unfold load_data in H.
  destruct (batch_size c =? 0); [discriminate|]. injection H as <-. simpl.
  split; [now apply NoDup_map_fst_filter|].
  intros id. unfold getAnns. rewrite in_map_iff. split.
  - intros ([k annos] & Hk & Hin). simpl in Hk. subst k.
    apply filter_In in Hin. destruct Hin as [Hin Hne]. simpl in Hne.
    rewrite (lookup_NoDup id _ annos Hnd Hin). now apply nonempty_true.
  - destruct (lookup id (imgToAnns w)) as [annos|] eqn:Hl; [|congruence].
    intros Hne. exists (id, annos). split; [reflexivity|].
    apply filter_In. split; [now apply lookup_In|]. simpl. now apply nonempty_true.
Qed.

(** X1.  When the keys of [imgToAnns] are distinct, the ids the generator
    holds are distinct, after construction and in every state a call can
    start in, and an id is among them exactly when [_data_generation] finds
    at least one annotation of the configured crowd flag for it. *)
Theorem eligible_ids_are_annotated (w : World) (c : Config) (st0 st : State) :
  NoDup (map fst (imgToAnns w)) ->
  (forall n l, Permutation l (np_random_shuffle w n l)) ->
  load_data w c = Ok st0 ->
  reachable w st0 st ->
  NoDup (img_ids st) /\
  forall id, In id (img_ids st) <-> getAnns w c id <> [].
Proof.
  intros Hnd Hperm Hload Hr.
  destruct (load_data_ids w c st0 Hnd Hload) as [Hnd0 Hin0].
  destruct (invariant_reachable w c st0 Hperm Hload st Hr) as (Hp & _).
  split.
  - eapply Permutation_NoDup; eassumption.
  - intros id. rewrite <- Hin0. split; intros Hin.
    + eapply Permutation_in; [apply Permutation_sym|]; eassumption.
    + eapply Permutation_in; eassumption.
Qed.

(** ** The slices of an epoch *)

Lemma py_slice_in_range {A : Type} (a n : Z) (l : list A) :
  0 <= a -> 0 <= n -> a + n <= Z.of_nat (length l) ->
  py_slice a (a + n) l = firstn (Z.to_nat n) (skipn (Z.to_nat a) l).
Proof.
  intros Ha Hn Hle. unfold py_slice, py_index.
  destruct (Z.ltb_spec a 0); [lia|]. destruct (Z.ltb_spec (a + n) 0); [lia|].
  replace (Nat.min (length l) (Z.to_nat a)) with (Z.to_nat a) by lia.
  replace (Nat.min (length l) (Z.to_nat (a + n)) - Z.to_nat a)%nat
    with (Z.to_nat n) by lia.
  reflexivity.
Qed.

Lemma firstn_plus {A : Type} (n m : nat) (l : list A) :
  firstn (n + m) l = firstn n l ++ firstn m (skipn n l).
Proof.
  revert l. induction n as [|n IH]; intros l; simpl; [reflexivity|].
  destruct l as [|x t]; simpl.
  - now rewrite firstn_nil.
  - now rewrite IH.
Qed.

Lemma batch_ids_in_epoch (c : Config) (ids : list Z) (k : Z) :
  0 < batch_size c ->
  0 <= k < Z.of_nat (length ids) / batch_size c ->
  batch_ids c ids k
  = firstn (Z.to_nat (batch_size c)) (skipn (Z.to_nat (k * batch_size c)) ids) /\
  length (batch_ids c ids k) = Z.to_nat (batch_size c).
Proof.
  intros Hbs Hk. unfold batch_ids.
  pose proof (Z.mul_div_le (Z.of_nat (length ids)) (batch_size c) Hbs) as Hfloor.
  assert (Hle : k * batch_size c + batch_size c <= Z.of_nat (length ids)) by nia.
  replace ((k + 1) * batch_size c) with (k * batch_size c + batch_size c) by ring.
  rewrite py_slice_in_range by nia. split; [reflexivity|].
  rewrite length_firstn, length_skipn. nia.
Qed.

Lemma epoch_prefix (c : Config) (ids : list Z) (t : nat) :
  0 < batch_size c ->
  Z.of_nat t <= Z.of_nat (length ids) / batch_size c ->
  concat (map (fun k => batch_ids c ids (Z.of_nat k)) (seq 0 t))
  = firstn (t * Z.to_nat (batch_size c)) ids.
Proof.
  intros Hbs. induction t as [|t IH]; intros Ht; [reflexivity|].
  rewrite seq_S, map_app, concat_app, IH by lia. simpl.
  rewrite app_nil_r.
  destruct (batch_ids_in_epoch c ids (Z.of_nat t) Hbs) as [-> _]; [lia|].
  replace (Z.to_nat (Z.of_nat t * batch_size c))
    with (t * Z.to_nat (batch_size c))%nat by nia.
  rewrite <- firstn_plus. f_equal. lia.
Qed.

(** X2.  For a positive batch size, each of the [len(ids) // batch_size]
    slices of an epoch has exactly [batch_size] ids, the slices taken in
    order make up the first [total * batch_size] ids, and the fewer than
    [batch_size] ids after them belong to no slice of that epoch. *)
Theorem epoch_slices_cover_prefix (c : Config) (ids : list Z) :
  0 < batch_size c ->
  let total := Z.of_nat (length ids) / batch_size c in
  (forall k, 0 <= k < total ->
     length (batch_ids c ids k) = Z.to_nat (batch_size c)) /\
  concat (map (fun k => batch_ids c ids (Z.of_nat k)) (seq 0 (Z.to_nat total)))
  = firstn (Z.to_nat (total * batch_size c)) ids /\
  0 <= Z.of_nat (length ids) - total * batch_size c < batch_size c.
Proof.
  intros Hbs total. split; [|split].
  - intros k Hk. now apply batch_ids_in_epoch.
  - assert (Hnn : 0 <= total) by (apply Z.div_pos; lia).
    rewrite epoch_prefix by (subst total; lia).
    f_equal. nia.
  - pose proof (Z.div_mod (Z.of_nat (length ids)) (batch_size c)) as Hdm.
    pose proof (Z.mod_pos_bound (Z.of_nat (length ids)) (batch_size c) Hbs).
    subst total. lia.
Qed.

(** ** The cursor through an epoch *)

Lemma calls_in_epoch (w : World) (c : Config) (st0 : State) (k : nat) :
  load_data w c = Ok st0 ->
  Z.of_nat k <= total_batch_size st0 ->
  calls w k st0
  = mkState (Z.of_nat k) (total_batch_size st0) (img_ids st0) 0.
Proof.
  intros Hload. unfold load_data in Hload.
  destruct (batch_size c =? 0); [discriminate|]. injection Hload as <-.
  cbn [total_batch_size img_ids].
  induction k as [|k IH]; intros Hk; [reflexivity|].
  cbn [calls]. rewrite IH by lia. unfold rollover. cbn [total_batch_size current_batch_index].
  destruct (Z.leb_spec (Z.of_nat (length
    (map fst (filter (fun kv => nonempty (filter (crowd_matches c) (snd kv)))
                (imgToAnns w)))) / batch_size c) (Z.of_nat k)); [lia|].
  unfold advance. simpl. f_equal. lia.
Qed.

(** X3.  After construction the first [total_batch_size] activations of
    [next_batch] that do not raise leave the id sequence as it was built and
    move the cursor from 0 to [total_batch_size] without a shuffle; the next
    one shuffles once and leaves the cursor at 1. *)
Theorem epoch_is_total_batch_size_calls (w : World) (c : Config) (st0 : State) :
  load_data w c = Ok st0 ->
  0 <= total_batch_size st0 ->
  let total := Z.to_nat (total_batch_size st0) in
  (forall k, (k <= total)%nat ->
     calls w k st0 = mkState (Z.of_nat k) (total_batch_size st0) (img_ids st0) 0) /\
  calls w (S total) st0
  = mkState 1 (total_batch_size st0) (np_random_shuffle w 0 (img_ids st0)) 1.
Proof.
  intros Hload Hnn total. split.
  - intros k Hk. apply (calls_in_epoch w c); [assumption | lia].
  - cbn [calls]. rewrite (calls_in_epoch w c) by (assumption || lia).
    unfold rollover. cbn [total_batch_size current_batch_index].
    destruct (Z.leb_spec (total_batch_size st0) (Z.of_nat total)); [|lia].
    reflexivity.
Qed.

(** ** next_batch: the recursive call *)

Lemma batch_entries_all_kept (w : World) (c : Config) (ids : list Z)
      (entries : list (option (Sample.t * list box * list Z))) :
  mapM (batch_entry w c) ids = Ok entries ->
  Forall2 (fun id e => _data_generation w c id = Ok (fst (fst e)) /\
                       pad_or_truncate c (fst (fst e)) = Ok (snd (fst e), snd e))
          ids (somes entries).
Proof.
  revert entries. induction ids as [|id t IH]; simpl; intros entries H.
  - injection H as <-. constructor.
  - apply bind_Ok in H. destruct H as (e & He & H).
    apply bind_Ok in H. destruct H as (es & Hes & H). injection H as <-.
    unfold batch_entry in He.
    apply bind_Ok in He. destruct He as (data & Hd & He).
    rewrite guard_always_passes in He.
    apply bind_Ok in He. destruct He as ([bb ll] & Hp & He). injection He as <-.
    simpl. constructor; [split; assumption | now apply IH].
Qed.

Lemma py_slice_length_le_list {A : Type} (a b : Z) (l : list A) :
  (length (py_slice a b l) <= length l)%nat.
Proof.
  unfold py_slice. rewrite length_firstn, length_skipn. lia.
Qed.

Section Retry.

Variables (w : World) (c : Config).

Hypothesis shuffle_permutes : forall n l, Permutation l (np_random_shuffle w n l).

Lemma rollover_length (st : State) :
  length (img_ids (rollover w st)) = length (img_ids st) /\
  total_batch_size (rollover w st) = total_batch_size st.
Proof.
  unfold rollover.
  destruct (total_batch_size st <=? current_batch_index st); [|split; reflexivity].
  simpl. split; [|reflexivity].
  symmetry. apply Permutation_length. apply shuffle_permutes.
Qed.

Lemma rollover_cursor (st : State) :
  0 <= current_batch_index st -> 1 <= total_batch_size st ->
  0 <= current_batch_index (rollover w st) < total_batch_size st.
Proof.
  intros Hc Ht. unfold rollover.
  destruct (Z.leb_spec (total_batch_size st) (current_batch_index st)); simpl; lia.
Qed.

Lemma full_slice_kept (st : State)
      (entries : list (option (Sample.t * list box * list Z))) :
  0 < batch_size c ->
  0 <= current_batch_index st ->
  1 <= total_batch_size st ->
  total_batch_size st = Z.of_nat (length (img_ids st)) / batch_size c ->
  mapM (batch_entry w c)
       (batch_ids c (img_ids (rollover w st)) (current_batch_index (rollover w st)))
  = Ok entries ->
  Z.of_nat (length (somes entries)) = batch_size c.
Proof.
  intros Hbs Hc Ht Hd H.
  apply batch_entries_all_kept in H. apply Forall2_length in H. rewrite <- H.
  destruct (rollover_length st) as [Hlen _].
  pose proof (rollover_cursor st Hc Ht) as Hk.
  destruct (batch_ids_in_epoch c (img_ids (rollover w st))
              (current_batch_index (rollover w st)) Hbs) as [_ ->];
    [rewrite Hlen; lia | lia].
Qed.

(** X4.  When there are at least [batch_size] ids, so that the boundary is
    at least 1, the recursive call of line 78 is never taken: every slice
    is full and no sample is left out, so a call gives the same batch or the
    same exception whatever recursion depth is left to it. *)
Theorem next_batch_no_retry (st : State) (fuel : nat) :
  0 < batch_size c ->
  0 <= current_batch_index st ->
  1 <= total_batch_size st ->
  total_batch_size st = Z.of_nat (length (img_ids st)) / batch_size c ->
  next_batch w c (S fuel) st = next_batch w c 1 st.
Proof.
  intros Hbs Hc Ht Hd. cbn [next_batch].
  fold (batch_ids c (img_ids (rollover w st)) (current_batch_index (rollover w st))).
  destruct (mapM (batch_entry w c)
              (batch_ids c (img_ids (rollover w st))
                 (current_batch_index (rollover w st)))) as [entries|e] eqn:E;
    [|reflexivity].
  cbn [bind]. rewrite (full_slice_kept st entries Hbs Hc Ht Hd E).
  now rewrite Z.ltb_irrefl.
Qed.

(** X5.  A returned batch is built from the ids of the cursor's slice, in
    order, and the call leaves the cursor one further: with at least
    [batch_size] ids, the state after a returning call is
    [advance (rollover st)] and the images of the batch are those of the
    samples of [img_ids[cursor * batch_size : (cursor + 1) * batch_size]]. *)
Theorem next_batch_takes_cursor_slice (st st' : State) (fuel : nat) (out : Batch.t) :
  0 < batch_size c ->
  0 <= current_batch_index st ->
  1 <= total_batch_size st ->
  total_batch_size st = Z.of_nat (length (img_ids st)) / batch_size c ->
  next_batch w c fuel st = Ok (out, st') ->
  st' = advance (rollover w st) /\
  exists samples,
    Forall2 (fun id s => _data_generation w c id = Ok s)
            (batch_ids c (img_ids (rollover w st)) (current_batch_index (rollover w st)))
            samples /\
    Batch.imgs out = map (fun s => img_int32 (Sample.img s)) samples.
Proof.
  intros Hbs Hc Ht Hd H. destruct fuel as [|fuel]; [discriminate|].
  cbn [next_batch] in H.
  fold (batch_ids c (img_ids (rollover w st)) (current_batch_index (rollover w st)))
    in H.
  apply bind_Ok in H. destruct H as (entries & E & H).
  rewrite (full_slice_kept st entries Hbs Hc Ht Hd E), Z.ltb_irrefl in H.
  apply bind_Ok in H. destruct H as (o & Hasm & H). injection H as <- <-.
  split; [reflexivity|].
  exists (map (fun e => fst (fst e)) (somes entries)). split.
  - apply batch_entries_all_kept in E.
    clear Hasm. induction E as [|id e ids es [He _] _ IH]; simpl; constructor;
      assumption.
  - unfold assemble in Hasm.
    apply bind_Ok in Hasm. destruct Hasm as (bi & Hbi & Hasm).
    apply bind_Ok in Hasm. destruct Hasm as (bb & _ & Hasm).
    apply bind_Ok in Hasm. destruct Hasm as (bl & _ & Hasm).
    apply bind_Ok in Hasm. destruct Hasm as (bm & _ & Hasm).
    apply bind_Ok in Hasm. destruct Hasm as (bk & _ & Hasm).
    injection Hasm as <-. cbn [Batch.imgs].
    apply np_stack_Ok in Hbi. subst bi. now rewrite !map_map.
Qed.

(** X6.  With fewer ids than [batch_size] no call returns a batch: the
    slice is always short, line 78 calls again, and the call ends in an
    exception, that of the recursion limit if nothing else raises. *)
Theorem next_batch_never_returns_when_short (st : State) (fuel : nat) :
  0 < batch_size c ->
  Z.of_nat (length (img_ids st)) < batch_size c ->
  total_batch_size st = 0 ->
  0 <= current_batch_index st ->
  exists e, next_batch w c fuel st = Raise e.
Proof.
  intros Hbs. revert st. induction fuel as [|fuel IH]; intros st Hlen Ht Hc.
  - exists RecursionError. reflexivity.
  - cbn [next_batch].
    destruct (mapM (batch_entry w c) _) as [entries|e] eqn:E;
      [|exists e; reflexivity].
    cbn [bind]. apply mapM_length in E.
    pose proof (somes_length_le entries) as Hs.
    destruct (rollover_length st) as [Hl Htot].
    pose proof (py_slice_length_le_list
                  (current_batch_index (rollover w st) * batch_size c)
                  ((current_batch_index (rollover w st) + 1) * batch_size c)
                  (img_ids (rollover w st))) as Hsl.
    destruct (Z.ltb_spec (Z.of_nat (length (somes entries))) (batch_size c)); [|lia].
    apply IH.
    + unfold advance. simpl. lia.
    + unfold advance. simpl. lia.
    + unfold advance, rollover. simpl.
      destruct (Z.leb_spec (total_batch_size st) (current_batch_index st));
        simpl; lia.
Qed.

End Retry.

(** ** next_batch: what a returned batch holds *)

Lemma regular3_map (f : Z -> Z) (h w c : nat) (im : image) :
  regular3 h w c im -> regular3 h w c (map (map (map f)) im).
Proof.
  intros [Hlen Hrows]. split; [now rewrite length_map|].
  apply Forall_map. eapply Forall_impl; [|exact Hrows].
  intros row [Hrow Hpx]. split; [now rewrite length_map|].
  apply Forall_map. eapply Forall_impl; [|exact Hpx].
  intros px Hc. cbv beta in *. now rewrite length_map.
Qed.

Lemma resize_im_blob_regular (w : World) (c : Config) (im ir : image)
      (bb br : list box) (t0 t1 t2 : nat) :
  img_shape c = (t0, t1, t2) ->
  _resize_im w c im bb = Ok (ir, br) ->
  regular3 t0 t1 t2 ir.
Proof.
  intros Hshape. unfold _resize_im. destruct (np_shape3 im) as [[h0 w0] c0].
  intros H.
  apply bind_Ok in H. destruct H as (s & _ & H).
  apply bind_Ok in H. destruct H as (r & _ & H).
  apply bind_Ok in H. destruct H as (blob & Hblob & H). injection H as <- _.
  destruct r as [m|px].
  - unfold assign_blob3_plane in Hblob. rewrite Hshape in Hblob.
    destruct (np_shape2 m) as [h' w'].
    destruct (bcast w' t2 && bcast h' (Nat.min w' t1)); [|discriminate].
    injection Hblob as <-. apply overlay_plane_regular.
  - unfold assign_blob3 in Hblob. rewrite Hshape in Hblob.
    destruct (np_shape3 px) as [[h' w'] c'].
    destruct (fits h' t0 && fits w' t1 && bcast c' t2); [|discriminate].
    injection Hblob as <-. apply overlay_regular.
Qed.

(** The [img] field of a sample is empty exactly when the image did not
    decode, and otherwise has the target shape. *)
Lemma data_generation_img (w : World) (c : Config) (id : Z) (s : Sample.t)
      (t0 t1 t2 : nat) :
  img_shape c = (t0, t1, t2) ->
  _data_generation w c id = Ok s ->
  (Sample.img s = NoImg /\ fetch w id = Ok Undecoded) \/
  (exists px, Sample.img s = Img px /\ regular3 t0 t1 t2 px).
Proof.
  intros Hshape. unfold _data_generation. intros H.
  apply bind_Ok in H. destruct H as (per & _ & H).
  apply bind_Ok in H. destruct H as ([[om ob] lb] & _ & H).
  apply bind_Ok in H. destruct H as (ok & _ & H).
  apply bind_Ok in H. destruct H as (f & Hf & H).
  destruct f as [|px|px].
  - injection H as <-. left. split; [reflexivity | assumption].
  - apply bind_Ok in H. destruct H as (ll & _ & H).
    apply bind_Ok in H. destruct H as (bb & _ & H).
    apply bind_Ok in H. destruct H as ([ir br] & Hr & H). injection H as <-.
    right. exists ir. split; [reflexivity|].
    eapply resize_im_blob_regular; eassumption.
  - apply bind_Ok in H. destruct H as (ll & _ & H).
    apply bind_Ok in H. destruct H as (bb & _ & H).
    apply bind_Ok in H. destruct H as ([ir br] & Hr & H). injection H as <-.
    right. exists ir. split; [reflexivity|].
    eapply resize_im_blob_regular; eassumption.
Qed.

Lemma undecoded_not_padded (w : World) (c : Config) (id : Z) (s : Sample.t)
      (bb : list box) (ll : list Z) :
  include_mask c = false ->
  0 <= max_instances c ->
  _data_generation w c id = Ok s ->
  pad_or_truncate c s = Ok (bb, ll) ->
  Sample.img s <> NoImg.
Proof.
  intros Hm Hmax Hs Hp Himg.
  destruct (img_shape c) as [[t0 t1] t2] eqn:Hshape.
  destruct (data_generation_img w c id s t0 t1 t2 Hshape Hs)
    as [[_ Hread]|(px & Hpx & _)]; [|congruence].
  apply data_generation_fields in Hs.
  destruct Hs as (per & _ & _ & Hmask & Hi). rewrite Hm in Hmask.
  destruct Hmask as [_ Hb]. specialize (Hb Hread).
  destruct (Hi Hread) as [_ Hl].
  unfold pad_or_truncate in Hp. rewrite Hb, Hl in Hp. simpl in Hp.
  destruct (Z.ltb_spec (max_instances c) 0); [lia | discriminate].
Qed.

(** X7.  Every image of a returned batch is either the empty entry of an
    image that did not decode or an array of exactly the configured target
    shape; without masks (and with a non-negative [max_instances]) a returned
    batch holds no empty entry. *)
Theorem batch_images_have_target_shape (w : World) (c : Config) (fuel : nat)
        (st st' : State) (out : Batch.t) (t0 t1 t2 : nat) :
  img_shape c = (t0, t1, t2) ->
  next_batch w c fuel st = Ok (out, st') ->
  Forall (fun f => f = NoImg \/ exists px, f = Img px /\ regular3 t0 t1 t2 px)
         (Batch.imgs out) /\
  (include_mask c = false -> 0 <= max_instances c ->
   Forall (fun f => f <> NoImg) (Batch.imgs out)).
Proof.
  intros Hshape. revert st.
  induction fuel as [|fuel IH]; intros st H; [discriminate|].
  cbn [next_batch] in H.
  apply bind_Ok in H. destruct H as (entries & Hent & H).
  destruct (Z.of_nat (length (somes entries)) <? batch_size c);
    [eapply IH; eassumption|].
  clear IH.
  apply bind_Ok in H. destruct H as (o & Hasm & H). injection H as <- _.
  apply batch_entries_padded in Hent.
  unfold assemble in Hasm.
  apply bind_Ok in Hasm. destruct Hasm as (bi & Hbi & Hasm).
  apply bind_Ok in Hasm. destruct Hasm as (bb & _ & Hasm).
  apply bind_Ok in Hasm. destruct Hasm as (bl & _ & Hasm).
  apply bind_Ok in Hasm. destruct Hasm as (bm & _ & Hasm).
  apply bind_Ok in Hasm. destruct Hasm as (bk & _ & Hasm).
  injection Hasm as <-. cbn [Batch.imgs].
  apply np_stack_Ok in Hbi. subst bi. rewrite map_map. split.
  - apply Forall_map. eapply Forall_impl; [|exact Hent].
    intros e [[id Hid] _]. cbv beta.
    destruct (data_generation_img w c id _ t0 t1 t2 Hshape Hid)
      as [[-> _]|(px & -> & Hreg)]; simpl.
    + now left.
    + right. eexists. split; [reflexivity|]. now apply regular3_map.
  - intros Hm Hmax. apply Forall_map. eapply Forall_impl; [|exact Hent].
    intros [[data b] l] [[id Hid] Hp]. simpl in *.
    pose proof (undecoded_not_padded w c id data b l Hm Hmax Hid Hp) as Hne.
    destruct (Sample.img data); [congruence | discriminate].
Qed.

Lemma shape_eqb_eq (s t : list nat) : shape_eqb s t = true -> s = t.
Proof.
  revert t. induction s as [|a s IH]; intros [|b t]; simpl; try discriminate;
    [reflexivity|].
  intros H. apply andb_prop in H. destruct H as [Hab Hst].
  apply Nat.eqb_eq in Hab. subst. f_equal. now apply IH.
Qed.

Lemma homogeneous_shapes {A : Type} (shape : A -> list nat) (l : list A) :
  homogeneous shape l = true ->
  forall x y, In x l -> In y l -> shape x = shape y.
Proof.
  destruct l as [|x0 t]; simpl; [contradiction|]. intros H.
  rewrite forallb_forall in H.
  assert (Hx : forall x, x0 = x \/ In x t -> shape x = shape x0).
  { intros x [<-|Hin]; [reflexivity|]. apply shape_eqb_eq. now apply H. }
  intros x y Hxin Hyin. rewrite (Hx x Hxin), (Hx y Hyin). reflexivity.
Qed.

Lemma np_stack_shapes {A : Type} (shape : A -> list nat) (cast : A -> A)
      (l l' : list A) :
  np_stack shape cast l = Ok l' ->
  forall x' y', In x' l' -> In y' l' ->
    exists x y, x' = cast x /\ y' = cast y /\ shape x = shape y.
Proof.
  unfold np_stack. destruct (homogeneous shape l) eqn:Hh; [|discriminate].
  intros H. injection H as <-. intros x' y' Hx Hy.
  apply in_map_iff in Hx. destruct Hx as (x & <- & Hx).
  apply in_map_iff in Hy. destruct Hy as (y & <- & Hy).
  exists x, y. repeat split. now apply (homogeneous_shapes shape l).
Qed.

Lemma assemble_uniform (c : Config) (kept : list (Sample.t * list box * list Z))
      (out : Batch.t) :
  assemble c kept = Ok out ->
  (forall m1 m2, In m1 (Batch.masks out) -> In m2 (Batch.masks out) ->
     length m1 = length m2) /\
  (forall k1 k2, In k1 (Batch.keypoints out) -> In k2 (Batch.keypoints out) ->
     length k1 = length k2) /\
  (forall f1 f2, In f1 (Batch.imgs out) -> In f2 (Batch.imgs out) ->
     (f1 = NoImg <-> f2 = NoImg)).
Proof.
  unfold assemble. intros Hasm.
  apply bind_Ok in Hasm. destruct Hasm as (bi & Hbi & Hasm).
  apply bind_Ok in Hasm. destruct Hasm as (bb & _ & Hasm).
  apply bind_Ok in Hasm. destruct Hasm as (bl & _ & Hasm).
  apply bind_Ok in Hasm. destruct Hasm as (bm & Hbm & Hasm).
  apply bind_Ok in Hasm. destruct Hasm as (bk & Hbk & Hasm).
  injection Hasm as <-. cbn [Batch.masks Batch.keypoints Batch.imgs].
  split; [|split].
  - intros m1 m2 H1 H2.
    destruct (np_stack_shapes _ _ _ _ Hbm m1 m2 H1 H2) as (x & y & -> & -> & Hs).
    rewrite !length_map. unfold masks_shape in Hs. now injection Hs.
  - intros k1 k2 H1 H2.
    destruct (np_stack_shapes _ _ _ _ Hbk k1 k2 H1 H2) as (x & y & -> & -> & Hs).
    rewrite !length_map. unfold keypoints_shape in Hs.
    destruct x, y; simpl in *; try discriminate; [reflexivity|].
    injection Hs as Hn _. now rewrite Hn.
  - intros f1 f2 H1 H2.
    destruct (np_stack_shapes _ _ _ _ Hbi f1 f2 H1 H2) as (x & y & -> & -> & Hs).
    destruct x as [|px], y as [|py]; simpl in *; try tauto.
    + destruct (np_shape3 py) as [[? ?] ?]. discriminate.
    + destruct (np_shape3 px) as [[? ?] ?]. discriminate.
    + split; discriminate.
Qed.

Lemma np_stack_cases {A : Type} (shape : A -> list nat) (cast : A -> A) (l : list A) :
  np_stack shape cast l = Ok (map cast l) \/ np_stack shape cast l = Raise ValueError.
Proof.
  unfold np_stack. destruct (homogeneous shape l); auto.
Qed.

Lemma np_stack_ragged {A : Type} (shape : A -> list nat) (cast : A -> A) (l : list A)
      (x y : A) :
  In x l -> In y l -> shape x <> shape y ->
  np_stack shape cast l = Raise ValueError.
Proof.
  intros Hx Hy Hne. unfold np_stack.
  destruct (homogeneous shape l) eqn:Hh; [|reflexivity].
  contradiction Hne. exact (homogeneous_shapes shape l Hh x y Hx Hy).
Qed.

Lemma assemble_ragged (c : Config) (kept : list (Sample.t * list box * list Z))
      (e1 e2 : Sample.t * list box * list Z) :
  In e1 kept -> In e2 kept ->
  differ c (fst (fst e1)) (fst (fst e2)) ->
  assemble c kept = Raise ValueError.
Proof.
  intros H1 H2 Hd. unfold assemble.
  destruct Hd as [[Hi1 Hi2] | [[Hm Hlen] | [Hk Hlen]]].
  - rewrite (np_stack_ragged np_shape_img img_int32 _
               (Sample.img (fst (fst e1))) (Sample.img (fst (fst e2)))).
    + reflexivity.
    + apply (in_map (fun e => Sample.img (fst (fst e)))). exact H1.
    + apply (in_map (fun e => Sample.img (fst (fst e)))). exact H2.
    + rewrite Hi1. destruct (Sample.img (fst (fst e2))) as [|px]; [congruence|].
      cbn [np_shape_img]. destruct (np_shape3 px) as [[h w0] ch]. discriminate.
  - destruct (np_stack_cases np_shape_img img_int32
                (map (fun e => Sample.img (fst (fst e))) kept)) as [-> | ->];
      [cbn [bind] | reflexivity].
    destruct (np_stack_cases (fun b : list box => [length b; 4%nat])
                (map (box_map int16)) (map (fun e => snd (fst e)) kept)) as [-> | ->];
      [cbn [bind] | reflexivity].
    destruct (np_stack_cases (fun l : list Z => [length l]) (map int8)
                (map snd kept)) as [-> | ->];
      [cbn [bind] | reflexivity].
    rewrite Hm.
    rewrite (np_stack_ragged masks_shape (map (map (map int8))) _
               (Sample.masks (fst (fst e1))) (Sample.masks (fst (fst e2)))).
    + reflexivity.
    + apply (in_map (fun e => Sample.masks (fst (fst e)))). exact H1.
    + apply (in_map (fun e => Sample.masks (fst (fst e)))). exact H2.
    + unfold masks_shape. intros Heq. injection Heq as _ _ Heq. contradiction.
  - destruct (np_stack_cases np_shape_img img_int32
                (map (fun e => Sample.img (fst (fst e))) kept)) as [-> | ->];
      [cbn [bind] | reflexivity].
    destruct (np_stack_cases (fun b : list box => [length b; 4%nat])
                (map (box_map int16)) (map (fun e => snd (fst e)) kept)) as [-> | ->];
      [cbn [bind] | reflexivity].
    destruct (np_stack_cases (fun l : list Z => [length l]) (map int8)
                (map snd kept)) as [-> | ->];
      [cbn [bind] | reflexivity].
    destruct (np_stack_cases masks_shape (map (map (map int8)))
                (if include_mask c
                 then map (fun e => Sample.masks (fst (fst e))) kept else []))
      as [-> | ->]; [cbn [bind] | reflexivity].
    rewrite Hk.
    rewrite (np_stack_ragged keypoints_shape (map (map (triple_map int16))) _
               (Sample.keypoints (fst (fst e1))) (Sample.keypoints (fst (fst e2)))).
    + reflexivity.
    + apply (in_map (fun e => Sample.keypoints (fst (fst e)))). exact H1.
    + apply (in_map (fun e => Sample.keypoints (fst (fst e)))). exact H2.
    + unfold keypoints_shape.
      destruct (Sample.keypoints (fst (fst e1))) as [|k1 t1],
               (Sample.keypoints (fst (fst e2))) as [|k2 t2];
        try discriminate; [intros _; now apply Hlen|].
      intros Heq. injection Heq as Heq _. apply Hlen. cbn [length]. now rewrite Heq.
Qed.

(** X8.  The samples of a returned batch have the same number of mask
    planes and the same number of keypoint rows, and either all of its
    images are empty entries or none is.  When the entries kept from a slice
    are enough for a batch and two of their samples differ in one of these,
    the call raises ValueError at the stacking of lines 81-85. *)
Theorem batch_samples_uniform (w : World) (c : Config) (fuel : nat) (st : State) :
  (forall out st',
     next_batch w c fuel st = Ok (out, st') ->
     (forall m1 m2, In m1 (Batch.masks out) -> In m2 (Batch.masks out) ->
        length m1 = length m2) /\
     (forall k1 k2, In k1 (Batch.keypoints out) -> In k2 (Batch.keypoints out) ->
        length k1 = length k2) /\
     (forall f1 f2, In f1 (Batch.imgs out) -> In f2 (Batch.imgs out) ->
        (f1 = NoImg <-> f2 = NoImg))) /\
  (forall entries e1 e2,
     mapM (batch_entry w c)
          (batch_ids c (img_ids (rollover w st)) (current_batch_index (rollover w st)))
     = Ok entries ->
     batch_size c <= Z.of_nat (length (somes entries)) ->
     In e1 (somes entries) -> In e2 (somes entries) ->
     differ c (fst (fst e1)) (fst (fst e2)) ->
     next_batch w c (S fuel) st = Raise ValueError).
Proof.
  split.
  - intros out st'. revert st.
    induction fuel as [|fuel IH]; intros st H; [discriminate|].
    cbn [next_batch] in H.
    apply bind_Ok in H. destruct H as (entries & _ & H).
    destruct (Z.of_nat (length (somes entries)) <? batch_size c);
      [eapply IH; eassumption|].
    apply bind_Ok in H. destruct H as (o & Hasm & H). injection H as <- _.
    now apply assemble_uniform in Hasm.
  - intros entries e1 e2 Hent Hlen H1 H2 Hd.
    cbn [next_batch]. unfold batch_ids in Hent. rewrite Hent. cbn [bind].
    destruct (Z.ltb_spec (Z.of_nat (length (somes entries))) (batch_size c)); [lia|].
    rewrite (assemble_ragged c (somes entries) e1 e2 H1 H2 Hd). reflexivity.
Qed.

(** ** _resize_mask: planes and boxes *)

Lemma overlay_Forall {A : Type} (P : A -> Prop) (n : nat) (zero : A) (l : list A) :
  Forall P l -> P zero -> Forall P (overlay n zero l).
Proof.
  intros Hl Hz. unfold overlay. apply Forall_firstn_of. apply Forall_app.
  split; [assumption|]. apply Forall_forall. intros x Hx.
  apply repeat_spec in Hx. now subst.
Qed.

Lemma assign_blob2_binary (t0 t1 : nat) (m : matrix float) (plane : matrix Z) :
  assign_blob2 t0 t1 (binarize m) = Ok plane -> binary_plane t0 t1 plane.
Proof.
  unfold assign_blob2. destruct (np_shape2 (binarize m)) as [h w].
  destruct (fits h t0 && fits w t1); [|discriminate].
  intros H. injection H as <-. split; [apply overlay_length|].
  apply overlay_Forall.
  - apply Forall_map. apply Forall_forall. intros row Hrow. split.
    + apply overlay_length.
    + apply overlay_Forall; [|now left].
      unfold binarize in Hrow. apply in_map_iff in Hrow.
      destruct Hrow as (r & <- & _). apply Forall_map.
      apply Forall_forall. intros x _. destruct (float_ge_half x); auto.
  - split; [apply repeat_length|].
    apply Forall_forall. intros v Hv. apply repeat_spec in Hv. now left.
Qed.

Lemma scale_for_zero (t : nat) : forall s, scale_for t 0 <> Ok s.
Proof.
  intros s. unfold scale_for. destruct (py_float (Z.of_nat t)) as [f|e]; simpl;
    discriminate.
Qed.

Lemma resize_mask_shapes (w : World) (c : Config) (origin_masks : list (matrix Z))
      (planes : list (matrix Z)) (gt_boxes : list box) (t0 t1 t2 : nat) :
  img_shape c = (t0, t1, t2) ->
  _resize_mask w c origin_masks = Ok (planes, gt_boxes) ->
  origin_masks <> [] /\
  length planes = length origin_masks /\
  length gt_boxes = length origin_masks /\
  Forall (binary_plane t0 t1) planes.
Proof.
  intros Hshape H. pose proof (resize_mask_boxes_length _ _ _ _ _ H) as Hboxes.
  unfold _resize_mask in H.
  apply bind_Ok in H. destruct H as (s & Hs & H).
  apply bind_Ok in H. destruct H as (per & Hper & H).
  apply bind_Ok in H. destruct H as (mr & Hmr & H). injection H as <- _.
  split; [|split; [|split]].
  - intros ->. simpl in Hs. now apply scale_for_zero in Hs.
  - unfold np_concatenate in Hmr. destruct (map snd per) eqn:Hm; [discriminate|].
    injection Hmr as <-. rewrite <- Hm, length_map.
    exact (mapM_length _ _ _ Hper).
  - exact Hboxes.
  - unfold np_concatenate in Hmr. destruct (map snd per) eqn:Hm; [discriminate|].
    injection Hmr as <-. rewrite <- Hm. apply Forall_map.
    apply mapM_Forall2 in Hper. clear Hm Hboxes Hs.
    induction Hper as [|m0 p ms ps Hone _ IH]; constructor; [|exact IH].
    unfold resize_one_mask in Hone. rewrite Hshape in Hone.
    apply bind_Ok in Hone. destruct Hone as (mf & _ & Hone).
    apply bind_Ok in Hone. destruct Hone as (bd & _ & Hone).
    apply bind_Ok in Hone. destruct Hone as (blob & Hblob & Hone).
    injection Hone as <-. simpl. now apply assign_blob2_binary in Hblob.
Qed.

(** X9.  When [_resize_mask] returns, it was given at least one mask, and
    it returns one plane and one box for each mask, in order; every plane
    has exactly the target's height and width and holds only 0 and 1. *)
Theorem resize_mask_planes (w : World) (c : Config) (origin_masks : list (matrix Z))
        (planes : list (matrix Z)) (gt_boxes : list box) (t0 t1 t2 : nat) :
  img_shape c = (t0, t1, t2) ->
  _resize_mask w c origin_masks = Ok (planes, gt_boxes) ->
  origin_masks <> [] /\
  length planes = length origin_masks /\
  length gt_boxes = length origin_masks /\
  Forall (binary_plane t0 t1) planes.
Proof.
  intros Hshape H. now apply (resize_mask_shapes w c _ _ _ t0 t1 t2).
Qed.

Lemma nonzero_from_In (j0 : Z) (row : list Z) (j : Z) :
  In j (nonzero_from j0 row) <->
  j0 <= j /\ nth (Z.to_nat (j - j0)) row 0 <> 0.
Proof.
  revert j0. induction row as [|v t IH]; intros j0; cbn [nonzero_from].
  - split; [contradiction|]. intros [_ H]. now destruct (Z.to_nat (j - j0)).
  - assert (Hstep : j0 + 1 <= j ->
              nth (Z.to_nat (j - j0)) (v :: t) 0 = nth (Z.to_nat (j - (j0 + 1))) t 0).
    { intros Hlt. replace (Z.to_nat (j - j0)) with (S (Z.to_nat (j - (j0 + 1)))) by lia.
      reflexivity. }
    destruct (Z.eqb_spec v 0) as [Hv|Hv].
    + rewrite IH. split.
      * intros [Hle Hn]. split; [lia|]. now rewrite Hstep.
      * intros [Hle Hn]. destruct (Z.eq_dec j j0) as [->|Hne].
        -- rewrite Z.sub_diag in Hn. simpl in Hn. contradiction.
        -- split; [lia|]. rewrite <- Hstep by lia. assumption.
    + cbn [In]. rewrite IH. split.
      * intros [<-|[Hle Hn]].
        -- split; [lia|]. now rewrite Z.sub_diag.
        -- split; [lia|]. now rewrite Hstep.
      * intros [Hle Hn]. destruct (Z.eq_dec j j0) as [->|Hne]; [now left|].
        right. split; [lia|]. rewrite <- Hstep by lia. assumption.
Qed.

Lemma where_from_In (i0 : Z) (m : matrix Z) (i j : Z) :
  In (i, j) (where_from i0 m) <->
  i0 <= i /\ 0 <= j /\ get2 m (Z.to_nat (i - i0)) (Z.to_nat j) <> 0.
Proof.
  unfold get2. revert i0. induction m as [|r t IH]; intros i0; simpl where_from.
  - split; [contradiction|]. intros (_ & _ & H).
    now destruct (Z.to_nat (i - i0)), (Z.to_nat j).
  - rewrite in_app_iff, in_map_iff, IH.
    assert (Hstep : i0 + 1 <= i ->
              nth (Z.to_nat (i - i0)) (r :: t) [] = nth (Z.to_nat (i - (i0 + 1))) t []).
    { intros Hlt. replace (Z.to_nat (i - i0)) with (S (Z.to_nat (i - (i0 + 1)))) by lia.
      reflexivity. }
    split.
    + intros [(j' & Heq & Hin)|(Hle & Hj & Hn)].
      * injection Heq as <- <-. apply nonzero_from_In in Hin.
        destruct Hin as [Hj Hn]. rewrite Z.sub_0_r in Hn.
        rewrite Z.sub_diag. simpl. repeat split; try lia; try assumption.
      * repeat split; try lia. rewrite Hstep by lia. assumption.
    + intros (Hle & Hj & Hn). destruct (Z.eq_dec i i0) as [->|Hne].
      * left. exists j. split; [reflexivity|]. apply nonzero_from_In.
        rewrite Z.sub_diag in Hn. simpl in Hn. rewrite Z.sub_0_r. split; assumption.
      * right. repeat split; try lia. rewrite <- Hstep by lia. assumption.
Qed.

(** X10.  The box derived from a rectangular mask with a set pixel lies
    within the mask, contains every set pixel, and is tight: each of its
    four sides passes through a set pixel. *)
Theorem mask_bdbox_encloses (h w : nat) (m : matrix Z) (x0 y0 x1 y1 : Z) :
  length m = h -> Forall (fun r => length r = w) m ->
  mask_bdbox m = Ok (x0, y0, x1, y1) ->
  (0 <= x0 <= x1 /\ x1 < Z.of_nat w /\ 0 <= y0 <= y1 /\ y1 < Z.of_nat h) /\
  (forall i j, get2 m i j <> 0 ->
     x0 <= Z.of_nat j <= x1 /\ y0 <= Z.of_nat i <= y1) /\
  (exists i, get2 m i (Z.to_nat x0) <> 0) /\
  (exists i, get2 m i (Z.to_nat x1) <> 0) /\
  (exists j, get2 m (Z.to_nat y0) j <> 0) /\
  (exists j, get2 m (Z.to_nat y1) j <> 0).
Proof.
  intros Hh Hw H. pose proof (mask_bdbox_bounds h w m x0 y0 x1 y1 Hh Hw H) as Hb.
  split; [exact Hb|].
  unfold mask_bdbox, np_shape2, np_where in H.
  assert (Hin : forall i j, In (i, j) (where_from 0 m) <->
                  0 <= i /\ 0 <= j /\ get2 m (Z.to_nat i) (Z.to_nat j) <> 0).
  { intros i j. rewrite where_from_In, Z.sub_0_r. reflexivity. }
  destruct (where_from 0 m) as [|[i0 j0] idx] eqn:Hidx; [discriminate|].
  cbn [map fst snd np_min np_max bind] in H.
  destruct (fold_min_spec (map snd idx) j0) as [Hc1 Hc2].
  destruct (fold_max_spec (map snd idx) j0) as [Hc3 Hc4].
  destruct (fold_min_spec (map fst idx) i0) as [Hr1 Hr2].
  destruct (fold_max_spec (map fst idx) i0) as [Hr3 Hr4].
  change (j0 :: map snd idx) with (map snd ((i0, j0) :: idx)) in Hc1, Hc2, Hc3, Hc4.
  change (i0 :: map fst idx) with (map fst ((i0, j0) :: idx)) in Hr1, Hr2, Hr3, Hr4.
  set (cmin := fold_left Z.min (map snd idx) j0) in *.
  set (cmax := fold_left Z.max (map snd idx) j0) in *.
  set (rmin := fold_left Z.min (map fst idx) i0) in *.
  set (rmax := fold_left Z.max (map fst idx) i0) in *.
  assert (Hcols : forall j, In j (map snd ((i0, j0) :: idx)) ->
            exists i, get2 m i (Z.to_nat j) <> 0 /\ 0 <= j).
  { intros j Hj. apply in_map_iff in Hj. destruct Hj as ([i j'] & Heq & Hj).
    simpl in Heq. subst j'. apply Hin in Hj. destruct Hj as (_ & Hj0 & Hn). eauto. }
  assert (Hrows : forall i, In i (map fst ((i0, j0) :: idx)) ->
            exists j, get2 m (Z.to_nat i) j <> 0 /\ 0 <= i).
  { intros i Hi. apply in_map_iff in Hi. destruct Hi as ([i' j] & Heq & Hi).
    simpl in Heq. subst i'. apply Hin in Hi. destruct Hi as (Hi0 & _ & Hn). eauto. }
  assert (Hx0 : x0 = cmin /\ y0 = rmin /\ x1 = cmax /\ y1 = rmax).
  { destruct (Hcols _ Hc1) as (_ & _ & ?). destruct (Hrows _ Hr1) as (_ & _ & ?).
    destruct (Z.leb_spec 0 cmin); [|lia]. destruct (Z.leb_spec 0 rmin); [|lia].
    assert (Hhd : length (hd [] m) = w).
    { destruct m as [|r m']; [discriminate|]. now inversion Hw. }
    rewrite Hhd, Hh in H.
    destruct (Z.leb_spec cmax (Z.of_nat w)); destruct (Z.leb_spec rmax (Z.of_nat h));
      injection H as <- <- <- <-; lia. }
  destruct Hx0 as (-> & -> & -> & ->).
  split; [|split; [|split; [|split]]].
  - intros i j Hn.
    assert (Hij : In (Z.of_nat i, Z.of_nat j) ((i0, j0) :: idx)).
    { apply Hin. rewrite !Nat2Z.id. repeat split; try lia; try assumption. }
    pose proof (in_map snd _ _ Hij) as Hj. pose proof (in_map fst _ _ Hij) as Hi.
    simpl fst in Hi. simpl snd in Hj.
    pose proof (Hc2 _ Hj). pose proof (Hc4 _ Hj).
    pose proof (Hr2 _ Hi). pose proof (Hr4 _ Hi). lia.
  - destruct (Hcols _ Hc1) as (i & Hn & _). eauto.
  - destruct (Hcols _ Hc3) as (i & Hn & _). eauto.
  - destruct (Hrows _ Hr1) as (j & Hn & _). eauto.
  - destruct (Hrows _ Hr3) as (j & Hn & _). eauto.
Qed.

(** X11.  [mask_bdbox] raises exactly when the mask has no set pixel, and
    then it raises ValueError; a mask with a set pixel always gets a box. *)
Theorem mask_bdbox_raises_iff_empty (m : matrix Z) :
  (mask_bdbox m = Raise ValueError <-> forall i j, get2 m i j = 0) /\
  (forall e, mask_bdbox m = Raise e -> e = ValueError).
Proof.
  assert (Hin : forall i j, In (i, j) (where_from 0 m) <->
                  0 <= i /\ 0 <= j /\ get2 m (Z.to_nat i) (Z.to_nat j) <> 0).
  { intros i j. rewrite where_from_In, Z.sub_0_r. reflexivity. }
  assert (Hcase : (where_from 0 m = [] /\ mask_bdbox m = Raise ValueError) \/
                  (where_from 0 m <> [] /\ exists b, mask_bdbox m = Ok b)).
  { unfold mask_bdbox, np_shape2, np_where.
    destruct (where_from 0 m) as [|[i0 j0] idx]; [left; split; reflexivity|].
    right. split; [discriminate|]. cbn [map fst snd np_min np_max bind]. eauto. }
  split.
  - split.
    + intros Hr i j. destruct Hcase as [[Hnil _]|[_ [b Hb]]]; [|congruence].
      destruct (Z.eq_dec (get2 m i j) 0) as [|Hn]; [assumption|].
      assert (Hij : In (Z.of_nat i, Z.of_nat j) (where_from 0 m)).
      { apply Hin. rewrite !Nat2Z.id. repeat split; try lia; try assumption. }
      rewrite Hnil in Hij. contradiction.
    + intros Hz. destruct Hcase as [[_ Hr]|[Hne _]]; [assumption|].
      destruct (where_from 0 m) as [|[i j] idx] eqn:Hw; [congruence|].
      assert (Hij : In (i, j) ((i, j) :: idx)) by now left.
      apply Hin in Hij. destruct Hij as (_ & _ & Hn). now rewrite Hz in Hn.
  - intros e He. destruct Hcase as [[_ Hr]|[_ [b Hb]]]; congruence.
Qed.

Lemma overlay2_set_pixel (t0 t1 : nat) (mb : matrix Z) (i j : nat) :
  get2 (overlay t0 (repeat 0 t1) (map (overlay t1 0) mb)) i j <> 0 ->
  get2 mb i j <> 0.
Proof.
  unfold get2. intros H.
  destruct (Nat.ltb_spec i t0) as [Hi|Hi].
  - rewrite (nth_overlay t0 _ [] _ i Hi), length_map in H.
    destruct (Nat.ltb_spec i (length mb)) as [Hil|Hil].
    + rewrite (nth_map_lt _ mb [] [] i Hil) in H.
      destruct (Nat.ltb_spec j t1) as [Hj|Hj].
      * rewrite (nth_overlay t1 _ 0 _ j Hj) in H.
        destruct (Nat.ltb_spec j (length (nth i mb []))); [assumption | congruence].
      * rewrite nth_overflow in H by (rewrite overlay_length; lia). congruence.
    + rewrite nth_repeat_any in H. now destruct (j <? t1)%nat.
  - rewrite (nth_overflow _ [] ) in H by (rewrite overlay_length; lia).
    now destruct j.
Qed.

Lemma resize_one_mask_encloses (w : World) (c : Config) (s : float) (m : matrix Z)
      (bd : box) (plane : matrix Z) (t0 t1 t2 : nat) :
  (forall r, cv2_resize_mask w s (map (map float32_of_int) m) = Ok r ->
             rectangular r) ->
  img_shape c = (t0, t1, t2) ->
  Z.of_nat t0 <= 32767 -> Z.of_nat t1 <= 32767 ->
  resize_one_mask w c s m = Ok (bd, plane) ->
  box_encloses (box_map int16 bd) plane.
Proof.
  intros Hrect Hshape Ht0 Ht1 H. unfold resize_one_mask in H. rewrite Hshape in H.
  apply bind_Ok in H. destruct H as (mr & Hcv & H).
  apply bind_Ok in H. destruct H as (b & Hbd & H).
  apply bind_Ok in H. destruct H as (blob & Hblob & H). injection H as <- <-.
  destruct (Hrect _ Hcv) as [wd Hwd].
  assert (Hwd' : Forall (fun r => length r = wd) (binarize mr)).
  { unfold binarize. apply Forall_map. eapply Forall_impl; [|exact Hwd].
    intros r Hr. cbv beta in *. now rewrite length_map. }
  destruct b as [[[x0 y0] x1] y1].
  destruct (mask_bdbox_bounds (length (binarize mr)) wd _ x0 y0 x1 y1 eq_refl Hwd' Hbd)
    as (Hx & Hx1 & Hy & Hy1).
  assert (Henc : forall i j, get2 (binarize mr) i j <> 0 ->
            x0 <= Z.of_nat j <= x1 /\ y0 <= Z.of_nat i <= y1).
  { unfold mask_bdbox, np_shape2, np_where in Hbd.
    assert (Hin : forall i j, In (i, j) (where_from 0 (binarize mr)) <->
                    0 <= i /\ 0 <= j /\
                    get2 (binarize mr) (Z.to_nat i) (Z.to_nat j) <> 0).
    { intros i j. rewrite where_from_In, Z.sub_0_r. reflexivity. }
    destruct (where_from 0 (binarize mr)) as [|[i0 j0] idx] eqn:Hidx; [discriminate|].
    cbn [map fst snd np_min np_max bind] in Hbd.
    destruct (fold_min_spec (map snd idx) j0) as [Hc1 Hc2].
    destruct (fold_max_spec (map snd idx) j0) as [Hc3 Hc4].
    destruct (fold_min_spec (map fst idx) i0) as [Hr1 Hr2].
    destruct (fold_max_spec (map fst idx) i0) as [Hr3 Hr4].
    intros i j Hn.
    assert (Hij : In (Z.of_nat i, Z.of_nat j) ((i0, j0) :: idx)).
    { apply Hin. rewrite !Nat2Z.id. repeat split; try lia; try assumption. }
    pose proof (in_map snd _ _ Hij) as Hj. pose proof (in_map fst _ _ Hij) as Hi.
    cbn [map fst snd] in Hi, Hj.
    pose proof (Hc2 _ Hj). pose proof (Hc4 _ Hj).
    pose proof (Hr2 _ Hi). pose proof (Hr4 _ Hi).
    assert (Hhd : length (hd [] (binarize mr)) = wd).
    { destruct (binarize mr) as [|r m']; [simpl in Hy1; lia|]. now inversion Hwd'. }
    rewrite Hhd in Hbd.
    destruct (Z.leb_spec 0 (fold_left Z.min (map snd idx) j0));
      destruct (Z.leb_spec 0 (fold_left Z.min (map fst idx) i0));
      destruct (Z.leb_spec (fold_left Z.max (map snd idx) j0) (Z.of_nat wd));
      destruct (Z.leb_spec (fold_left Z.max (map fst idx) i0)
                           (Z.of_nat (length (binarize mr))));
      injection Hbd as <- <- <- <-; lia. }
  unfold assign_blob2, np_shape2 in Hblob.
  assert (Hhd : length (hd [] (binarize mr)) = wd).
  { destruct (binarize mr) as [|r m']; [simpl in Hy1; lia|]. now inversion Hwd'. }
  rewrite Hhd in Hblob. unfold fits in Hblob.
  destruct (Nat.leb_spec (length (binarize mr)) t0) as [Hh|Hh];
    destruct (Nat.eqb_spec (length (binarize mr)) 1) as [Hh1|Hh1];
    destruct (Nat.leb_spec wd t1) as [Hw|Hw];
    destruct (Nat.eqb_spec wd 1) as [Hw1|Hw1];
    cbn [orb andb] in Hblob; try discriminate;
    injection Hblob as <-;
    (cbn [box_map]; rewrite !int16_small by lia;
     intros i j Hn; apply overlay2_set_pixel in Hn; now apply Henc).
Qed.

(** X18.  When [cv2.resize] returns rectangular arrays for the masks and the
    target is at most 32767 pixels high and wide, each box [_resize_mask]
    returns encloses every set pixel of the mask plane returned at the same
    position. *)
Theorem resize_mask_boxes_enclose (w : World) (c : Config) (origin_masks : list (matrix Z))
        (planes : list (matrix Z)) (gt_boxes : list box) (t0 t1 t2 : nat) :
  (forall s m r, In m origin_masks ->
     cv2_resize_mask w s (map (map float32_of_int) m) = Ok r -> rectangular r) ->
  img_shape c = (t0, t1, t2) ->
  Z.of_nat t0 <= 32767 -> Z.of_nat t1 <= 32767 ->
  _resize_mask w c origin_masks = Ok (planes, gt_boxes) ->
  Forall2 box_encloses gt_boxes planes.
Proof.
  intros Hrect Hshape Ht0 Ht1 H. unfold _resize_mask in H.
  apply bind_Ok in H. destruct H as (s & _ & H).
  apply bind_Ok in H. destruct H as (per & Hper & H).
  apply bind_Ok in H. destruct H as (mr & Hmr & H). injection H as <- <-.
  unfold np_concatenate in Hmr. destruct (map snd per) eqn:Hm; [discriminate|].
  injection Hmr as <-. rewrite <- Hm. clear Hm.
  apply mapM_Forall2 in Hper.
  induction Hper as [|m0 [bd plane] ms ps Hone _ IH]; simpl; constructor.
  - eapply resize_one_mask_encloses; try eassumption.
    intros r. apply Hrect. now left.
  - apply IH. intros s' m1 r1 Hin. apply Hrect. now right.
Qed.

(** ** _resize_im: misfits and signs *)

(** X12.  When the array [cv2.resize] returns is taller or wider than the
    target (and has more than one row, or column), or has neither the
    target's channel count nor a single channel, [_resize_im] raises
    ValueError, whatever the boxes are. *)
Theorem resize_im_misfit_raises (w : World) (c : Config) (origin_im : image)
        (bboxes : list box) (s : float) (r : image) (t0 t1 t2 h' w' c' : nat) :
  img_shape c = (t0, t1, t2) ->
  scale_for t0 (Z.max (Z.of_nat (length origin_im))
                      (Z.of_nat (length (hd [] origin_im)))) = Ok s ->
  cv2_resize w s origin_im = Ok (Resized3 r) ->
  np_shape3 r = (h', w', c') ->
  (t0 < h' /\ h' <> 1)%nat \/ (t1 < w' /\ w' <> 1)%nat \/ (c' <> t2 /\ c' <> 1%nat) ->
  _resize_im w c origin_im bboxes = Raise ValueError.
Proof.
  intros Hshape Hs Hr Hsh Hbad.
  unfold _resize_im, np_shape3. rewrite Hshape. cbn [fst snd].
  rewrite Hs. cbn [bind]. rewrite Hr. cbn [bind].
  unfold assign_blob3. rewrite Hsh. unfold fits, bcast.
  assert (Hcond : (((h' <=? t0) || (h' =? 1)) && ((w' <=? t1) || (w' =? 1))
                   && ((c' =? t2) || (c' =? 1)))%nat = false).
  { destruct (Nat.leb_spec h' t0), (Nat.eqb_spec h' 1),
      (Nat.leb_spec w' t1), (Nat.eqb_spec w' 1),
      (Nat.eqb_spec c' t2), (Nat.eqb_spec c' 1); simpl; try reflexivity; lia. }
  rewrite Hcond. reflexivity.
Qed.










(** X20.  For a single-channel image [cv2.resize] returns a 2-D array of
    shape [(h', w')], and the slice assignment of line 109 raises ValueError
    unless [w'] is the target's channel count or 1 and [h'] is the number of
    columns of the assigned region or 1. *)
Theorem resize_im_plane_misfit_raises (w : World) (c : Config) (origin_im : image)
        (bboxes : list box) (s : float) (m : matrix Z) (t0 t1 t2 h' w' : nat) :
  img_shape c = (t0, t1, t2) ->
  scale_for t0 (Z.max (Z.of_nat (length origin_im))
                      (Z.of_nat (length (hd [] origin_im)))) = Ok s ->
  cv2_resize w s origin_im = Ok (Resized2 m) ->
  np_shape2 m = (h', w') ->
  (w' <> t2 /\ w' <> 1%nat) \/ (h' <> Nat.min w' t1 /\ h' <> 1%nat) ->
  _resize_im w c origin_im bboxes = Raise ValueError.
Proof.
  intros Hshape Hs Hr Hsh Hbad.
  unfold _resize_im, np_shape3. rewrite Hshape. cbn [fst snd].
  rewrite Hs. cbn [bind]. rewrite Hr. cbn [bind].
  unfold assign_blob3_plane. rewrite Hsh. unfold bcast.
  assert (Hcond : (((w' =? t2) || (w' =? 1))
                   && ((h' =? Nat.min w' t1) || (h' =? 1)))%nat = false).
  { destruct (Nat.eqb_spec w' t2), (Nat.eqb_spec w' 1),
      (Nat.eqb_spec h' (Nat.min w' t1)), (Nat.eqb_spec h' 1);
      simpl; try reflexivity; lia. }
  rewrite Hcond. reflexivity.
Qed.

(** ** _data_generation: how a sample is put together *)

Lemma per_ann_projections (c : Config) (anns : list Ann.t)
      (per : list (box * Z * option (matrix Z) * option (list triple))) :
  mapM (per_ann c) anns = Ok per ->
  mapM ann_box anns = Ok (map (fun p => fst (fst (fst p))) per) /\
  map (fun p => snd (fst (fst p))) per = map Ann.category_id anns /\
  (include_mask c = true ->
   somes (map (fun p => snd (fst p)) per) = map Ann.mask anns).
Proof.
  revert per. induction anns as [|a t IH]; simpl; intros per H.
  - injection H as <-. repeat split; reflexivity.
  - apply bind_Ok in H. destruct H as (p & Hp & H).
    apply bind_Ok in H. destruct H as (ps & Hps & H). injection H as <-.
    destruct (IH _ Hps) as (Hb & Hl & Hm).
    unfold per_ann in Hp.
    apply bind_Ok in Hp. destruct Hp as (b & Hbox & Hp).
    apply bind_Ok in Hp. destruct Hp as (kp & _ & Hp). injection Hp as <-.
    cbn [map fst snd]. rewrite Hbox. cbn [bind]. rewrite Hb. cbn [bind].
    split; [reflexivity|]. split; [now rewrite Hl|].
    intros Hflag. rewrite Hflag. cbn [somes]. now rewrite (Hm Hflag).
Qed.

Lemma int16_range (v : Z) : -32768 <= int16 v <= 32767.
Proof.
  unfold int16, wrap. change (2 ^ (16 - 1)) with 32768. change (2 ^ 16) with 65536.
  pose proof (Z.mod_pos_bound (v + 32768) 65536). lia.
Qed.

Lemma box_int16_idem (l : list box) :
  map (box_map int16) (map (box_map int16) l) = map (box_map int16) l.
Proof.
  rewrite map_map. apply map_ext. intros [[[x0 y0] x1] y1]. simpl.
  now rewrite !(int16_small (int16 _)) by apply int16_range.
Qed.

Lemma resize_mask_boxes_int16 (w : World) (c : Config) (ms mr : list (matrix Z))
      (gt : list box) :
  _resize_mask w c ms = Ok (mr, gt) -> map (box_map int16) gt = gt.
Proof.
  unfold _resize_mask. intros H.
  apply bind_Ok in H. destruct H as (s & _ & H).
  apply bind_Ok in H. destruct H as (per & _ & H).
  apply bind_Ok in H. destruct H as (pl & _ & H). injection H as _ <-.
  apply box_int16_idem.
Qed.

(** X14.  Without masks, the sample of a decoded image holds the
    annotation boxes [[int(x), int(y), int(x + w), int(y + h)]] in annotation
    order, converted to int16 and passed through [resize_boxes] with the
    image scale, the category ids converted to int8 in the same order, and
    no mask. *)
Theorem decoded_sample_without_masks (w : World) (c : Config) (id : Z)
        (s : Sample.t) (f : fetched) (px : image) :
  include_mask c = false ->
  fetch w id = Ok f ->
  decoded f = Some px ->
  _data_generation w c id = Ok s ->
  exists raw im_scale,
    mapM ann_box (getAnns w c id) = Ok raw /\
    scale_for (fst (fst (img_shape c)))
      (Z.max (Z.of_nat (length px)) (Z.of_nat (length (hd [] px)))) = Ok im_scale /\
    resize_boxes w im_scale (map (box_map int16) raw) = Sample.bboxes s /\
    Sample.labels s = map (fun a => int8 (Ann.category_id a)) (getAnns w c id) /\
    Sample.masks s = [].
Proof.
  intros Hm Hf Hdec. unfold _data_generation. rewrite Hm, Hf. intros H.
  apply bind_Ok in H. destruct H as (per & Hper & H).
  apply per_ann_projections in Hper. destruct Hper as (Hraw & Hlab & _).
  cbn [bind] in H.
  apply bind_Ok in H. destruct H as (ok & _ & H).
  cbn [bind] in H.
  assert (Hgen : exists ll bb ir br,
             mapM (np_int 8) (map (fun p => snd (fst (fst p))) per) = Ok ll /\
             mapM (box_mapM (np_int 16)) (map (fun p => fst (fst (fst p))) per)
             = Ok bb /\
             _resize_im w c px bb = Ok (ir, br) /\
             s = Sample.mk (Img ir) ll br [] ok).
  { destruct f as [|g|p]; simpl in Hdec;
      [discriminate | injection Hdec as <- | injection Hdec as <-];
      apply bind_Ok in H; destruct H as (ll & Hll & H);
      apply bind_Ok in H; destruct H as (bb & Hbb & H);
      apply bind_Ok in H; destruct H as ([ir br] & Hr & H); injection H as <-;
      eauto 8. }
  destruct Hgen as (ll & bb & ir & br & Hll & Hbb & Hr & ->).
  apply mapM_np_int in Hll. apply mapM_box_np_int in Hbb. subst ll bb.
  cbn [Sample.bboxes Sample.labels Sample.masks].
  unfold _resize_im, np_shape3 in Hr.
  apply bind_Ok in Hr. destruct Hr as (sc & Hsc & Hr).
  apply bind_Ok in Hr. destruct Hr as (r & _ & Hr).
  apply bind_Ok in Hr. destruct Hr as (blob & _ & Hr). injection Hr as _ <-.
  exists (map (fun p => fst (fst (fst p))) per), sc.
  repeat split; try assumption.
  rewrite Hlab. now rewrite map_map.
Qed.

(** X15.  With masks, the boxes of the sample of a decoded image are not
    the boxes [_resize_mask] derives from the masks but those boxes passed
    through [resize_boxes] with the image scale; the annotation's own boxes
    play no part. *)
Theorem decoded_sample_with_masks (w : World) (c : Config) (id : Z)
        (s : Sample.t) (f : fetched) (px : image) :
  include_mask c = true ->
  fetch w id = Ok f ->
  decoded f = Some px ->
  _data_generation w c id = Ok s ->
  exists gt_boxes im_scale,
    _resize_mask w c (map Ann.mask (getAnns w c id)) = Ok (Sample.masks s, gt_boxes) /\
    scale_for (fst (fst (img_shape c)))
      (Z.max (Z.of_nat (length px)) (Z.of_nat (length (hd [] px)))) = Ok im_scale /\
    resize_boxes w im_scale gt_boxes = Sample.bboxes s.
Proof.
  intros Hm Hf Hdec. unfold _data_generation. rewrite Hm, Hf. intros H.
  apply bind_Ok in H. destruct H as (per & Hper & H).
  apply per_ann_projections in Hper. destruct Hper as (_ & _ & Hmasks).
  rewrite (Hmasks Hm) in H.
  apply bind_Ok in H. destruct H as ([[om ob] lb] & Hrm & H).
  apply bind_Ok in Hrm. destruct Hrm as ([mr gt] & Hrm & Heq).
  injection Heq as <- <- <-.
  apply bind_Ok in H. destruct H as (ok & _ & H).
  cbn [bind] in H.
  assert (Hgen : exists bb ir br,
             mapM (box_mapM (np_int 16)) gt = Ok bb /\
             _resize_im w c px bb = Ok (ir, br) /\
             Sample.masks s = mr /\ Sample.bboxes s = br).
  { destruct f as [|g|p]; simpl in Hdec;
      [discriminate | injection Hdec as <- | injection Hdec as <-];
      apply bind_Ok in H; destruct H as (ll & _ & H);
      apply bind_Ok in H; destruct H as (bb & Hbb & H);
      apply bind_Ok in H; destruct H as ([ir br] & Hr & H); injection H as <-;
      eauto 8. }
  destruct Hgen as (bb & ir & br & Hbb & Hr & -> & ->).
  apply mapM_box_np_int in Hbb. subst bb.
  rewrite (resize_mask_boxes_int16 _ _ _ _ _ Hrm) in Hr.
  unfold _resize_im, np_shape3 in Hr.
  apply bind_Ok in Hr. destruct Hr as (sc & Hsc & Hr).
  apply bind_Ok in Hr. destruct Hr as (r & _ & Hr).
  apply bind_Ok in Hr. destruct Hr as (blob & _ & Hr). injection Hr as _ <-.
  eauto.
Qed.

(** X16.  The instance counts of a sample agree with the annotations:
    with masks there is one plane for each annotation, and at least one
    annotation; keypoint rows come only from annotations, so there are no
    more of them than annotations; and when the image decoded there is one
    label and one box for each annotation. *)
Theorem sample_instance_counts (w : World) (c : Config) (id : Z) (s : Sample.t) :
  _data_generation w c id = Ok s ->
  let n := length (getAnns w c id) in
  (include_mask c = true -> length (Sample.masks s) = n /\ (0 < n)%nat) /\
  (length (Sample.keypoints s) <= n)%nat /\
  (Sample.img s <> NoImg ->
   length (Sample.labels s) = n /\ length (Sample.bboxes s) = n).
Proof.
  intros H n. pose proof H as H0.
  apply data_generation_fields in H.
  destruct H as (per & Hper & Hk & Hmask & _).
  pose proof (mapM_length _ _ _ Hper) as Hlen. fold n in Hlen.
  split; [|split].
  - intros Hm. rewrite Hm in Hmask. destruct Hmask as (gt & Hrm & _).
    destruct (img_shape c) as [[t0 t1] t2] eqn:Hshape.
    destruct (resize_mask_shapes w c _ _ _ t0 t1 t2 Hshape Hrm)
      as (Hne & Hpl & _ & _).
    rewrite (per_ann_masks_length c _ _ Hm Hper) in Hpl.
    split; [lia|]. rewrite <- Hlen.
    rewrite <- (per_ann_masks_length c _ _ Hm Hper).
    destruct (somes (map (fun p => snd (fst p)) per)); [congruence | simpl; lia].
  - destruct (include_keypoint c).
    + unfold keypoints_int8 in Hk. apply np_stack_length in Hk. rewrite Hk.
      pose proof (somes_length_le (map snd per)) as Hs.
      rewrite length_map in Hs. lia.
    + rewrite Hk. simpl. lia.
  - intros Himg. pose proof (decoded_sample_counts w c id s H0 Himg) as Hbl.
    assert (Hl : length (Sample.labels s) = length per).
    { clear Hk Hmask Hbl. unfold _data_generation in H0. rewrite Hper in H0.
      cbn [bind] in H0.
      apply bind_Ok in H0. destruct H0 as ([[om ob] lb] & _ & H0).
      apply bind_Ok in H0. destruct H0 as (ok & _ & H0).
      apply bind_Ok in H0. destruct H0 as (f & _ & H0).
      destruct f as [|g|p].
      - injection H0 as <-. now contradiction Himg.
      - apply bind_Ok in H0. destruct H0 as (ll & Hll & H0).
        apply bind_Ok in H0. destruct H0 as (bb & _ & H0).
        apply bind_Ok in H0. destruct H0 as ([ir br] & _ & H0). injection H0 as <-.
        simpl. now rewrite (mapM_length _ _ _ Hll), length_map.
      - apply bind_Ok in H0. destruct H0 as (ll & Hll & H0).
        apply bind_Ok in H0. destruct H0 as (bb & _ & H0).
        apply bind_Ok in H0. destruct H0 as ([ir br] & _ & H0). injection H0 as <-.
        simpl. now rewrite (mapM_length _ _ _ Hll), length_map. }
    lia.
Qed.

(** X17.  With masks, an image id without an annotation of the configured
    crowd flag makes [_data_generation] raise ZeroDivisionError: the scale of
    [_resize_mask] divides by the largest entry of the shape of an empty
    list. *)
Theorem no_annotation_with_masks_raises (w : World) (c : Config) (id : Z) :
  include_mask c = true ->
  getAnns w c id = [] ->
  is_finite (float_of_int (Z.of_nat (fst (fst (img_shape c))))) = true ->
  _resize_mask w c [] = Raise ZeroDivisionError /\
  _data_generation w c id = Raise ZeroDivisionError.
Proof.
  intros Hm Hanns Hfin.
  assert (Hrm : _resize_mask w c [] = Raise ZeroDivisionError).
  { unfold _resize_mask. cbn [length hd].
    change (Z.max (Z.of_nat 0) (Z.of_nat 0)) with 0.
    unfold scale_for, py_float. rewrite Hfin. cbn [bind].
    change (float_of_int 0) with (S754_zero false). reflexivity. }
  split; [exact Hrm|].
  unfold _data_generation. rewrite Hanns. cbn [mapM bind map somes].
  rewrite Hm, Hrm. reflexivity.
Qed.

(** ** The error paths of lines 211, 218 and 219, and the wrap of line 112 *)

Lemma fetch_missing (w : World) (id : Z) :
  lookup id (imgs w) = None \/ lookup id (imgs w) = Some None ->
  fetch w id = Raise KeyError.
Proof.
  unfold fetch. intros [-> | ->]; reflexivity.
Qed.

(** X22.  An image id without a record in [coco.imgs], or whose record has
    no ['coco_url'], never gives a sample: [_data_generation] raises, and it
    raises KeyError when neither masks nor keypoints are included and every
    annotation box converts. *)
Theorem missing_image_record_raises (w : World) (c : Config) (id : Z) :
  lookup id (imgs w) = None \/ lookup id (imgs w) = Some None ->
  (exists e, _data_generation w c id = Raise e) /\
  (include_mask c = false -> include_keypoint c = false ->
   Forall bbox_finite (getAnns w c id) ->
   _data_generation w c id = Raise KeyError).
Proof.
  intros Hrec. apply fetch_missing in Hrec. split.
  - unfold _data_generation.
    destruct (mapM (per_ann c) (getAnns w c id)) as [per|e];
      [|exists e; reflexivity].
    cbn [bind].
    match goal with
    | |- context [bind ?r _] =>
        destruct r as [[[om ob] lb]|e]; [|exists e; reflexivity]
    end.
    cbn [bind].
    match goal with
    | |- context [bind ?r _] => destruct r as [ok|e]; [|exists e; reflexivity]
    end.
    cbn [bind]. rewrite Hrec. exists KeyError. reflexivity.
  - intros Hm Hk Hfin.
    assert (Hper : exists per, mapM (per_ann c) (getAnns w c id) = Ok per).
    { apply mapM_total. eapply Forall_impl; [|exact Hfin].
      intros a Ha. destruct (ann_box_finite a Ha) as [b Hb].
      unfold per_ann. rewrite Hb, Hk. simpl. eauto. }
    destruct Hper as [per Hper].
    unfold _data_generation. rewrite Hper, Hm, Hk, Hrec. reflexivity.
Qed.

Lemma np_int_cases (bits z : Z) :
  (np_int bits z = Ok (wrap bits z) /\ in_c_long z = true) \/
  (np_int bits z = Raise OverflowError /\ in_c_long z = false).
Proof.
  unfold np_int. destruct (in_c_long z); auto.
Qed.

Lemma mapM_np_int_cases (bits : Z) (l : list Z) :
  (exists l', mapM (np_int bits) l = Ok l' /\ Forall (fun z => in_c_long z = true) l) \/
  mapM (np_int bits) l = Raise OverflowError.
Proof.
  induction l as [|z t IH]; cbn [mapM].
  - left. eauto.
  - destruct (np_int_cases bits z) as [[-> Hz] | [-> _]]; cbn [bind]; [|now right].
    destruct IH as [(t' & -> & Ht) | ->]; cbn [bind]; [|now right].
    left. eauto.
Qed.

Lemma box_np_int_cases (b : box) :
  (exists b', box_mapM (np_int 16) b = Ok b' /\
              box_all (fun x => in_c_long x = true) b) \/
  box_mapM (np_int 16) b = Raise OverflowError.
Proof.
  destruct b as [[[x0 y0] x1] y1]. unfold box_mapM, box_all.
  destruct (np_int_cases 16 x0) as [[-> H0] | [-> _]]; cbn [bind]; [|now right].
  destruct (np_int_cases 16 y0) as [[-> H1] | [-> _]]; cbn [bind]; [|now right].
  destruct (np_int_cases 16 x1) as [[-> H2] | [-> _]]; cbn [bind]; [|now right].
  destruct (np_int_cases 16 y1) as [[-> H3] | [-> _]]; cbn [bind]; [|now right].
  left. eauto 6.
Qed.

Lemma mapM_box_np_int_cases (l : list box) :
  (exists l', mapM (box_mapM (np_int 16)) l = Ok l' /\
              Forall (box_all (fun x => in_c_long x = true)) l) \/
  mapM (box_mapM (np_int 16)) l = Raise OverflowError.
Proof.
  induction l as [|b t IH]; cbn [mapM].
  - left. eauto.
  - destruct (box_np_int_cases b) as [(b' & -> & Hb) | ->]; cbn [bind]; [|now right].
    destruct IH as [(t' & -> & Ht) | ->]; cbn [bind]; [|now right].
    left. eauto.
Qed.

Lemma Forall_not_Exists {A : Type} (P : A -> Prop) (l : list A) :
  Forall P l -> Exists (fun a => ~ P a) l -> False.
Proof.
  intros HF HE. apply Exists_exists in HE. destruct HE as (a & Hin & Hna).
  rewrite Forall_forall in HF. exact (Hna (HF a Hin)).
Qed.

Lemma per_ann_plain (c : Config) (anns : list Ann.t) (raw : list box) :
  include_keypoint c = false ->
  mapM ann_box anns = Ok raw ->
  exists per,
    mapM (per_ann c) anns = Ok per /\
    map (fun p => fst (fst (fst p))) per = raw /\
    map (fun p => snd (fst (fst p))) per = map Ann.category_id anns.
Proof.
  intros Hk. revert raw. induction anns as [|a t IH]; cbn [mapM map]; intros raw H.
  - injection H as <-. exists []. auto.
  - apply bind_Ok in H. destruct H as (b & Hb & H).
    apply bind_Ok in H. destruct H as (bs & Hbs & H). injection H as <-.
    destruct (IH _ Hbs) as (per & Hper & Hbox & Hlab).
    unfold per_ann at 1. rewrite Hb, Hk. cbn [andb bind]. rewrite Hper. cbn [bind].
    eexists. split; [reflexivity|]. cbn [map fst snd]. now rewrite Hbox, Hlab.
Qed.

(** X23.  When the image decoded and neither masks nor keypoints are
    included, a category id or a box coordinate that no C long holds makes the
    conversions of lines 218-219 raise OverflowError. *)
Theorem big_int_raises (w : World) (c : Config) (id : Z) (f : fetched) (px : image)
        (raw : list box) :
  include_mask c = false -> include_keypoint c = false ->
  mapM ann_box (getAnns w c id) = Ok raw ->
  fetch w id = Ok f ->
  decoded f = Some px ->
  Exists (fun a => in_c_long (Ann.category_id a) <> true) (getAnns w c id) \/
  Exists (fun b => ~ box_all (fun x => in_c_long x = true) b) raw ->
  _data_generation w c id = Raise OverflowError.
Proof.
  intros Hm Hk Hraw Hf Hdec Hbig.
  destruct (per_ann_plain c _ _ Hk Hraw) as (per & Hper & Hbox & Hlab).
  unfold _data_generation. rewrite Hper, Hm, Hk, Hf. cbn [bind].
  rewrite Hbox, Hlab.
  assert (Hcont : forall im : image,
             (ll <- mapM (np_int 8) (map Ann.category_id (getAnns w c id)) ;;
              bb <- mapM (box_mapM (np_int 16)) raw ;;
              ' (img_resize, bboxes_resize) <- _resize_im w c im bb ;;
              Ok (Sample.mk (Img img_resize) ll bboxes_resize [] []))
             = Raise OverflowError).
  { intros im.
    destruct (mapM_np_int_cases 8 (map Ann.category_id (getAnns w c id)))
      as [(ll & -> & Hll) | ->]; [cbn [bind] | reflexivity].
    destruct (mapM_box_np_int_cases raw) as [(bb & -> & Hbb) | ->];
      [cbn [bind] | reflexivity].
    exfalso. destruct Hbig as [Hbig | Hbig].
    - rewrite Forall_map in Hll.
      exact (Forall_not_Exists _ _ Hll Hbig).
    - exact (Forall_not_Exists _ _ Hbb Hbig). }
  destruct f as [|g|p]; simpl in Hdec;
    [discriminate | injection Hdec as <- | injection Hdec as <-]; apply Hcont.
Qed.

Lemma int16_congruent (v : Z) : (int16 v - v) mod 65536 = 0.
Proof.
  unfold int16, wrap. change (2 ^ (16 - 1)) with 32768. change (2 ^ 16) with 65536.
  pose proof (Z.div_mod (v + 32768) 65536).
  replace ((v + 32768) mod 65536 - 32768 - v) with (- ((v + 32768) / 65536) * 65536)
    by lia.
  apply Z_mod_mult.
Qed.

(** X24.  Line 112 never rejects a coordinate.  A product that a 32-bit
    integer holds is stored as the low 16 bits of its truncation: the stored
    value lies in [-32768, 32767], differs from the truncated product by a
    multiple of 2^16, and is not the truncated product when that does not fit
    an int16. *)
Theorem scaled_coordinate_wraps (w : World) (s : float) (x : Z) :
  is_finite (fmul (float_of_int x) s) = true ->
  in_int32 (float_trunc (fmul (float_of_int x) s)) = true ->
  scale_coord w s x = int16 (float_trunc (fmul (float_of_int x) s)) /\
  -32768 <= scale_coord w s x <= 32767 /\
  (scale_coord w s x - float_trunc (fmul (float_of_int x) s)) mod 65536 = 0 /\
  (in_int16 (float_trunc (fmul (float_of_int x) s)) = false ->
   scale_coord w s x <> float_trunc (fmul (float_of_int x) s)).
Proof.
  intros Hfin H32.
  assert (E : scale_coord w s x = int16 (float_trunc (fmul (float_of_int x) s))).
  { unfold scale_coord, cast_float_int16. now rewrite Hfin, H32. }
  rewrite E. split; [reflexivity|]. split; [apply int16_range|].
  split; [apply int16_congruent|].
  intros Hout Heq. pose proof (int16_range (float_trunc (fmul (float_of_int x) s))) as Hr.
  rewrite Heq in Hr. unfold in_int16 in Hout.
  apply andb_false_iff in Hout. destruct Hout as [Hout | Hout].
  - apply Z.leb_gt in Hout. lia.
  - apply Z.leb_gt in Hout. lia.
Qed.

(** ** next_batch: the masks of a batch *)

Lemma binary_plane_int8 (t0 t1 : nat) (p : matrix Z) :
  binary_plane t0 t1 p -> binary_plane t0 t1 (map (map int8) p).
Proof.
  intros [Hlen Hrows]. split; [now rewrite length_map|].
  apply Forall_map. eapply Forall_impl; [|exact Hrows].
  intros row [Hrow Hv]. split; [now rewrite length_map|].
  apply Forall_map. eapply Forall_impl; [|exact Hv].
  intros v [->| ->]; [left | right]; reflexivity.
Qed.

(** X19.  Every mask plane of a returned batch has exactly the target's
    height and width and holds only 0 and 1. *)
Theorem batch_masks_are_binary_planes (w : World) (c : Config) (fuel : nat)
        (st st' : State) (out : Batch.t) (t0 t1 t2 : nat) :
  img_shape c = (t0, t1, t2) ->
  next_batch w c fuel st = Ok (out, st') ->
  Forall (Forall (binary_plane t0 t1)) (Batch.masks out).
Proof.
  intros Hshape. revert st.
  induction fuel as [|fuel IH]; intros st H; [discriminate|].
  cbn [next_batch] in H.
  apply bind_Ok in H. destruct H as (entries & Hent & H).
  destruct (Z.of_nat (length (somes entries)) <? batch_size c);
    [eapply IH; eassumption|].
  clear IH.
  apply bind_Ok in H. destruct H as (o & Hasm & H). injection H as <- _.
  apply batch_entries_padded in Hent.
  unfold assemble in Hasm.
  apply bind_Ok in Hasm. destruct Hasm as (bi & _ & Hasm).
  apply bind_Ok in Hasm. destruct Hasm as (bb & _ & Hasm).
  apply bind_Ok in Hasm. destruct Hasm as (bl & _ & Hasm).
  apply bind_Ok in Hasm. destruct Hasm as (bm & Hbm & Hasm).
  apply bind_Ok in Hasm. destruct Hasm as (bk & _ & Hasm).
  injection Hasm as <-. cbn [Batch.masks].
  apply np_stack_Ok in Hbm. subst bm.
  destruct (include_mask c) eqn:Hm; [|constructor].
  rewrite map_map. apply Forall_map. eapply Forall_impl; [|exact Hent].
  intros e [[id Hid] _]. cbv beta.
  apply data_generation_fields in Hid.
  destruct Hid as (per & _ & _ & Hmask & _). rewrite Hm in Hmask.
  destruct Hmask as (gt & Hrm & _).
  destruct (resize_mask_shapes w c _ _ _ t0 t1 t2 Hshape Hrm) as (_ & _ & _ & Hpl).
  apply Forall_map. eapply Forall_impl; [|exact Hpl].
  intros p Hp. now apply binary_plane_int8.
Qed.

(** * The generator on the example data *)


(** C1, on [world_a].  [_resize_mask] derives the box (2, 1, 5, 2) from the
    resized mask, and the returned sample holds (1, 0, 2, 1): the derived box
    multiplied once more by the image scale 0.5 and cut to integers. *)
Theorem mask_boxes_rescaled :
  _resize_mask world_a config_a [mask_a] = Ok ([mask_a], [(2, 1, 5, 2)]) /\
  _data_generation world_a config_a 1
  = Ok (Sample.mk (Img (black 4 8)) [7] [(1, 0, 2, 1)] [mask_a] []).
Proof.
  split; vm_compute; reflexivity.
Qed.

(** C2, on [world_d], whose image does not decode.  The sample is not
    skipped and the call is not repeated: without masks the padding of the
    empty box list raises, and with masks and a batch of one the first
    activation returns the batch with the empty image in it. *)
Theorem undecoded_image_not_skipped :
  fetch world_d 1 = Ok Undecoded /\
  next_batch world_d config_plain 1 state_b = Raise ValueError /\
  exists out, next_batch world_d config_b 1 state_b = Ok (out, state_b') /\
              Batch.imgs out = [NoImg].
Proof.
  split; [reflexivity|]. split; [vm_compute; reflexivity|].
  eexists. split; vm_compute; reflexivity.
Qed.

(** C3 as stated fails on [world_b] with [max_instances] = 2 and one
    annotated instance.  The returned batch has two rows of boxes and two
    labels for the sample, but one mask plane and one keypoint row: masks and
    keypoints are neither padded nor cut. *)
Lemma masks_keypoints_not_padded :
  next_batch world_b config_b 1 state_b = Ok (batch_b, state_b') /\
  max_instances config_b = 2 /\
  map (@length box) (Batch.bboxes batch_b) = [2%nat] /\
  map (@length Z) (Batch.labels batch_b) = [2%nat] /\
  map (@length (matrix Z)) (Batch.masks batch_b) = [1%nat] /\
  map (@length (list triple)) (Batch.keypoints batch_b) = [1%nat].
Proof.
  repeat split; vm_compute; reflexivity.
Qed.

(** C3, amended, on [world_b]. *)
Lemma boxes_labels_fit_max_instances_witness :
  Forall (fun l => length l = 2%nat) (Batch.labels batch_b).
Proof.
  assert (E : next_batch world_b config_b 1 state_b = Ok (batch_b, state_b'))
    by (vm_compute; reflexivity).
  assert (Hmax : 0 <= max_instances config_b) by (simpl; lia).
  destruct (boxes_labels_fit_max_instances world_b config_b 1 state_b state_b'
              batch_b Hmax E) as (samples & _ & _ & H & _).
  exact H.
Defined.

(** C4 as stated fails on [world_d]: the image does not decode, masks and
    keypoints are included, and the returned sample carries the resized
    mask, the mask-derived box and the keypoint row. *)
Lemma undecoded_sample_keeps_masks :
  fetch world_d 1 = Ok Undecoded /\
  _data_generation world_d config_b 1
  = Ok (Sample.mk NoImg [] [(0, 0, 1, 1)] [mask_b] [[(-56, 100, 2)]]).
Proof.
  split; vm_compute; reflexivity.
Qed.

(** C4, amended, on [world_d] without masks and keypoints. *)
Lemma undecoded_sample_witness :
  _data_generation world_d config_plain 1 = Ok (Sample.mk NoImg [] [] [] []).
Proof.
  assert (Hfin : Forall bbox_finite (getAnns world_d config_plain 1)).
  { change (Forall bbox_finite [ann_b]). constructor; [|constructor].
    vm_compute. repeat split. }
  exact (proj2 (undecoded_sample world_d config_plain 1 eq_refl)
           eq_refl eq_refl Hfin).
Defined.

(** C5, on a mask without a set pixel: [np.min] of the empty index array
    raises, in [mask_bdbox], in [_resize_mask] and for the image as a whole. *)
Theorem empty_mask_raises :
  mask_bdbox [[0; 0]; [0; 0]] = Raise ValueError /\
  _resize_mask world_c config_b [[[0; 0]; [0; 0]]] = Raise ValueError /\
  _data_generation world_c config_b 1 = Raise ValueError.
Proof.
  repeat split; vm_compute; reflexivity.
Qed.

(** C6 as stated fails for a 2 x 4 image and the 4 x 2 target: the scale is
    4 / 4 = 1, the resized image is 2 x 4 and does not fit the buffer. *)
Lemma resize_im_wide_image_raises :
  _resize_im world_a config_e (black 2 4) [] = Raise ValueError.
Proof.
  vm_compute. reflexivity.
Qed.

(** C6, amended, on a 2 x 8 image and the 4 x 4 target: the scale is 0.5 and
    the resized image is the top row of the buffer. *)
Lemma resize_im_blob_witness :
  exists blob,
    _resize_im world_a config_sq (black 2 8) [] = Ok (blob, []) /\
    regular3 4 4 3 blob /\
    forall i j k, (i < 4)%nat -> (j < 4)%nat -> (k < 3)%nat ->
      get3 blob i j k
      = if (i <? 1)%nat && (j <? 4)%nat then get3 (black 1 4) i j k else 0.
Proof.
  apply (resize_im_blob world_a config_sq (black 2 8) [] half (black 1 4)
           4 4 3 1 4).
  - reflexivity.
  - vm_compute. reflexivity.
  - vm_compute. reflexivity.
  - split; [reflexivity | repeat constructor].
  - lia.
  - lia.
Defined.

(** C7 as stated fails on a negative coordinate: for a 2 x 2 image and a
    target of one pixel the scale is 0.5, the coordinate -3 becomes -1, and
    the floor of -1.5 is -2. *)
Lemma resize_boxes_not_floor :
  _resize_im world_a config_f (black 2 2) [(-3, 0, 1, 1)]
  = Ok ([[[0; 0; 0]]], [(-1, 0, 0, 0)]) /\
  resize_boxes world_a half [(-3, 0, 1, 1)] = [(-1, 0, 0, 0)] /\
  float_floor (fmul (float_of_int (-3)) half) = -2.
Proof.
  repeat split; vm_compute; reflexivity.
Qed.

(** C7, amended, on a box whose xmin exceeds its xmax. *)
Lemma resize_boxes_truncates_witness :
  Forall2 (box_scaled half) [(5, 0, 2, 0); (-3, 0, 1, 1)] [(2, 0, 1, 0); (-1, 0, 0, 0)].
Proof.
  assert (E : resize_boxes world_a half [(5, 0, 2, 0); (-3, 0, 1, 1)]
              = [(2, 0, 1, 0); (-1, 0, 0, 0)]) by (vm_compute; reflexivity).
  rewrite <- E.
  apply (proj1 (resize_boxes_truncates world_a half [(5, 0, 2, 0); (-3, 0, 1, 1)])).
  repeat constructor; vm_compute; reflexivity.
Defined.

(** C8, on [world_b]: the annotation's keypoint is (200, 100, 2) and the
    returned sample holds (-56, 100, 2). *)
Theorem keypoint_value_changed :
  raw_keypoints (getAnns world_b config_b 1) = Ok [[(200, 100, 2)]] /\
  _data_generation world_b config_b 1
  = Ok (Sample.mk (Img (black 2 2)) [7] [(0, 0, 1, 1)] [mask_b] [[(-56, 100, 2)]]).
Proof.
  split; vm_compute; reflexivity.
Qed.


(** C10 as stated fails when there are fewer eligible ids than
    [batch_size]: the boundary is 0, the first call advances the cursor to 1
    and calls itself in that state. *)
Lemma cursor_exceeds_boundary :
  load_data world_b config_h = Ok state_h /\
  (forall fuel, next_batch world_b config_h (S fuel) state_h
                = next_batch world_b config_h fuel state_h') /\
  reachable world_b state_h state_h' /\
  total_batch_size state_h' < current_batch_index state_h'.
Proof.
  split; [reflexivity|]. split; [|split].
  - intros fuel. reflexivity.
  - exact (reach_call world_b state_h state_h (reach_init world_b state_h)).
  - reflexivity.
Qed.

(** C10, amended, on [world_g]. *)
Lemma ids_boundary_cursor_preserved_witness :
  invariant config_g state_g state_g' /\
  invariant config_g state_g (_on_epoch_end world_g state_g').
Proof.
  assert (Hperm : forall (n : nat) (l : list Z),
             Permutation l (np_random_shuffle world_g n l))
    by (intros n l; apply Permutation_rev).
  assert (Hr : reachable world_g state_g state_g')
    by exact (reach_call world_g state_g state_g (reach_init world_g state_g)).
  pose proof (ids_boundary_cursor_preserved world_g config_g state_g
                Hperm eq_refl state_g' Hr) as (H1 & H2 & _).
  exact (conj H1 H2).
Defined.

(** * The further properties on the example data *)

Lemma resample_In {A : Type} (n : nat) (l : list A) (x : A) :
  In x (resample n l) -> In x l.
Proof.
  unfold resample. rewrite in_flat_map. intros (i & _ & Hx).
  destruct (nth_error l (i * length l / n)) as [y|] eqn:E; [|contradiction].
  destruct Hx as [<-|[]]. eapply nth_error_In; eassumption.
Qed.

Lemma flat_map_singleton_length {A B : Type} (f : A -> list B) (l : list A) :
  (forall a, In a l -> length (f a) = 1%nat) -> length (flat_map f l) = length l.
Proof.
  induction l as [|a t IH]; simpl; intros H; [reflexivity|].
  rewrite length_app, H by auto. rewrite IH by auto. reflexivity.
Qed.

Lemma resample_length {A : Type} (n : nat) (l : list A) :
  l <> [] -> length (resample n l) = n.
Proof.
  intros Hl. unfold resample. rewrite flat_map_singleton_length.
  - apply length_seq.
  - intros i Hi. apply in_seq in Hi.
    assert (Hlt : (i * length l / n < length l)%nat).
    { apply Nat.Div0.div_lt_upper_bound. destruct l; [congruence|]. simpl length. nia. }
    apply nth_error_Some in Hlt.
    destruct (nth_error l (i * length l / n)); [reflexivity | congruence].
Qed.

(** The runnable resize returns a rectangular array for an array without an
    empty row. *)
Lemma resize_nearest_rectangular {A : Type} (s : float) (m r : matrix A) :
  Forall (fun row => row <> []) m ->
  resize_nearest s m = Ok r -> rectangular r.
Proof.
  intros Hne. unfold resize_nearest. destruct (np_shape2 m) as [h w].
  destruct ((dsize s h =? 0)%nat || (dsize s w =? 0)%nat); [discriminate|].
  intros H. injection H as <-. exists (dsize s w).
  apply Forall_map. apply Forall_forall. intros row Hrow.
  apply resample_In in Hrow. rewrite Forall_forall in Hne.
  apply resample_length. now apply Hne.
Qed.

Lemma world_g_keys : NoDup (map fst (imgToAnns world_g)).
Proof.
  change (NoDup [1; 2; 3]).
  repeat constructor; simpl; intuition discriminate.
Qed.

Lemma world_g_shuffle (n : nat) (l : list Z) :
  Permutation l (np_random_shuffle world_g n l).
Proof.
  apply Permutation_rev.
Qed.

Lemma world_b_shuffle (n : nat) (l : list Z) :
  Permutation l (np_random_shuffle world_b n l).
Proof.
  apply Permutation_refl.
Qed.

(** X1, on [world_g] after one call. *)
Lemma eligible_ids_are_annotated_witness :
  NoDup (img_ids state_g') /\
  forall id, In id (img_ids state_g') <-> getAnns world_g config_g id <> [].
Proof.
  exact (eligible_ids_are_annotated world_g config_g state_g state_g'
           world_g_keys world_g_shuffle eq_refl
           (reach_call world_g state_g state_g (reach_init world_g state_g))).
Defined.

(** X2, on three ids and batches of two: one slice, and one id left out. *)
Lemma epoch_slices_cover_prefix_witness :
  concat (map (fun k => batch_ids config_g [1; 2; 3] (Z.of_nat k)) (seq 0 1))
  = [1; 2] /\
  0 <= 3 - 1 * 2 < 2.
Proof.
  destruct (epoch_slices_cover_prefix config_g [1; 2; 3] eq_refl) as (_ & H1 & H2).
  exact (conj H1 H2).
Defined.

(** X3, on [world_g]: the boundary is 1. *)
Lemma epoch_is_total_batch_size_calls_witness :
  calls world_g 1 state_g = mkState 1 1 [1; 2; 3] 0 /\
  calls world_g 2 state_g = mkState 1 1 [3; 2; 1] 1.
Proof.
  assert (Hnn : 0 <= total_batch_size state_g) by (simpl; lia).
  destruct (epoch_is_total_batch_size_calls world_g config_g state_g eq_refl Hnn)
    as [H1 H2].
  split; [exact (H1 1%nat (le_n 1)) | exact H2].
Defined.

(** X4, on [world_g]. *)
Lemma next_batch_no_retry_witness :
  next_batch world_g config_g 6 state_g = next_batch world_g config_g 1 state_g.
Proof.
  assert (H0 : 0 <= current_batch_index state_g) by (simpl; lia).
  assert (H1 : 1 <= total_batch_size state_g) by (simpl; lia).
  exact (next_batch_no_retry world_g config_g world_g_shuffle state_g 5
           eq_refl H0 H1 eq_refl).
Defined.

(** X5, on [world_g]: the first batch is built from ids 1 and 2. *)
Lemma next_batch_takes_cursor_slice_witness :
  state_g' = advance (rollover world_g state_g) /\
  exists samples,
    Forall2 (fun id s => _data_generation world_g config_g id = Ok s) [1; 2] samples /\
    Batch.imgs batch_g = map (fun s => img_int32 (Sample.img s)) samples.
Proof.
  assert (H0 : 0 <= current_batch_index state_g) by (simpl; lia).
  assert (H1 : 1 <= total_batch_size state_g) by (simpl; lia).
  assert (E : next_batch world_g config_g 1 state_g = Ok (batch_g, state_g'))
    by (vm_compute; reflexivity).
  exact (next_batch_takes_cursor_slice world_g config_g world_g_shuffle
           state_g state_g' 1 batch_g eq_refl H0 H1 eq_refl E).
Defined.

(** X6, on one id and batches of two. *)
Lemma next_batch_never_returns_when_short_witness :
  exists e, next_batch world_b config_h 7 state_h = Raise e.
Proof.
  assert (H0 : 0 <= current_batch_index state_h) by (simpl; lia).
  exact (next_batch_never_returns_when_short world_b config_h world_b_shuffle
           state_h 7 eq_refl eq_refl eq_refl H0).
Defined.

(** X7, on the batch of [world_g]. *)
Lemma batch_images_have_target_shape_witness :
  Forall (fun f => f = NoImg \/ exists px, f = Img px /\ regular3 2 2 3 px)
         (Batch.imgs batch_g) /\
  Forall (fun f => f <> NoImg) (Batch.imgs batch_g).
Proof.
  assert (E : next_batch world_g config_g 1 state_g = Ok (batch_g, state_g'))
    by (vm_compute; reflexivity).
  assert (Hmax : 0 <= max_instances config_g) by (simpl; lia).
  destruct (batch_images_have_target_shape world_g config_g 1 state_g state_g'
              batch_g 2 2 3 eq_refl E) as [H1 H2].
  exact (conj H1 (H2 eq_refl Hmax)).
Defined.

(** X8, on the batch of [world_g] and on the two images of [world_m]. *)
Lemma batch_samples_uniform_witness :
  ((forall m1 m2, In m1 (Batch.masks batch_g) -> In m2 (Batch.masks batch_g) ->
      length m1 = length m2) /\
   (forall k1 k2, In k1 (Batch.keypoints batch_g) -> In k2 (Batch.keypoints batch_g) ->
      length k1 = length k2) /\
   (forall f1 f2, In f1 (Batch.imgs batch_g) -> In f2 (Batch.imgs batch_g) ->
      (f1 = NoImg <-> f2 = NoImg))) /\
  next_batch world_m config_m 1 state_m = Raise ValueError.
Proof.
  assert (E : next_batch world_g config_g 1 state_g = Ok (batch_g, state_g'))
    by (vm_compute; reflexivity).
  assert (Em : mapM (batch_entry world_m config_m)
                 (batch_ids config_m (img_ids (rollover world_m state_m))
                    (current_batch_index (rollover world_m state_m)))
               = Ok entries_m) by (vm_compute; reflexivity).
  split.
  - exact (proj1 (batch_samples_uniform world_g config_g 1 state_g)
             batch_g state_g' E).
  - refine (proj2 (batch_samples_uniform world_m config_m 0 state_m)
              entries_m _ _ Em _ (or_introl eq_refl) (or_intror (or_introl eq_refl)) _).
    + simpl. lia.
    + right. left. split; [reflexivity | simpl; lia].
Defined.

(** X9, on the mask of [world_a]. *)
Lemma resize_mask_planes_witness :
  [mask_a] <> [] /\ length [mask_a] = 1%nat /\ length [(2, 1, 5, 2)] = 1%nat /\
  Forall (binary_plane 4 8) [mask_a].
Proof.
  assert (E : _resize_mask world_a config_a [mask_a] = Ok ([mask_a], [(2, 1, 5, 2)]))
    by (vm_compute; reflexivity).
  exact (resize_mask_planes world_a config_a [mask_a] [mask_a] [(2, 1, 5, 2)]
           4 8 3 eq_refl E).
Defined.

Lemma mask_a_rows : Forall (fun r : list Z => length r = 8%nat) mask_a.
Proof.
  repeat constructor.
Qed.

(** X10, on [mask_a]. *)
Lemma mask_bdbox_encloses_witness :
  (0 <= 2 <= 5 /\ 5 < 8 /\ 0 <= 1 <= 2 /\ 2 < 4) /\
  (forall i j, get2 mask_a i j <> 0 ->
     2 <= Z.of_nat j <= 5 /\ 1 <= Z.of_nat i <= 2).
Proof.
  assert (E : mask_bdbox mask_a = Ok (2, 1, 5, 2)) by (vm_compute; reflexivity).
  destruct (mask_bdbox_encloses 4 8 mask_a 2 1 5 2 eq_refl mask_a_rows E)
    as (H1 & H2 & _).
  exact (conj H1 H2).
Defined.

(** X11, on a mask without a set pixel. *)
Lemma mask_bdbox_raises_iff_empty_witness :
  (mask_bdbox [[0; 0]; [0; 0]] = Raise ValueError <->
   forall i j, get2 [[0; 0]; [0; 0]] i j = 0) /\
  (forall e, mask_bdbox [[0; 0]; [0; 0]] = Raise e -> e = ValueError).
Proof.
  exact (mask_bdbox_raises_iff_empty [[0; 0]; [0; 0]]).
Defined.

(** X12, on the 2 x 4 image and the 4 x 2 target. *)
Lemma resize_im_misfit_raises_witness :
  _resize_im world_a config_e (black 2 4) [(1, 1, 2, 2)] = Raise ValueError.
Proof.
  apply (resize_im_misfit_raises world_a config_e (black 2 4) [(1, 1, 2, 2)]
           (fdiv f4 f4) (black 2 4) 4 2 3 2 4 3).
  - reflexivity.
  - vm_compute. reflexivity.
  - vm_compute. reflexivity.
  - reflexivity.
  - right. left. lia.
Defined.


(** X20, on a 2 x 2 image with one channel and the 2 x 2 x 3 target. *)
Lemma resize_im_plane_misfit_raises_witness :
  _resize_im world_a config_plain single_channel [] = Raise ValueError.
Proof.
  apply (resize_im_plane_misfit_raises world_a config_plain single_channel []
           (fdiv f2 f2) [[5; 5]; [5; 5]] 2 2 3 2 2).
  - reflexivity.
  - vm_compute. reflexivity.
  - vm_compute. reflexivity.
  - reflexivity.
  - left. lia.
Defined.

(** X14, on the first image of [world_g]. *)
Lemma decoded_sample_without_masks_witness :
  exists raw im_scale,
    mapM ann_box (getAnns world_g config_g 1) = Ok raw /\
    scale_for 2 (Z.max 2 2) = Ok im_scale /\
    resize_boxes world_g im_scale (map (box_map int16) raw) = [(0, 0, 2, 2)] /\
    [7] = map (fun a => int8 (Ann.category_id a)) (getAnns world_g config_g 1) /\
    @nil (matrix Z) = [].
Proof.
  assert (E : _data_generation world_g config_g 1 = Ok sample_g)
    by (vm_compute; reflexivity).
  exact (decoded_sample_without_masks world_g config_g 1 sample_g
           (Color (black 2 2)) (black 2 2) eq_refl eq_refl eq_refl E).
Defined.

(** X15, on [world_a]. *)
Lemma decoded_sample_with_masks_witness :
  exists gt_boxes im_scale,
    _resize_mask world_a config_a (map Ann.mask (getAnns world_a config_a 1))
    = Ok ([mask_a], gt_boxes) /\
    scale_for 4 (Z.max 4 8) = Ok im_scale /\
    resize_boxes world_a im_scale gt_boxes = [(1, 0, 2, 1)].
Proof.
  assert (E : _data_generation world_a config_a 1 = Ok sample_a)
    by (vm_compute; reflexivity).
  exact (decoded_sample_with_masks world_a config_a 1 sample_a
           (Color (black 4 8)) (black 4 8) eq_refl eq_refl eq_refl E).
Defined.

(** X16, on [world_b]. *)
Lemma sample_instance_counts_witness :
  length (Sample.masks sample_b) = 1%nat /\
  (length (Sample.keypoints sample_b) <= 1)%nat /\
  length (Sample.labels sample_b) = 1%nat /\ length (Sample.bboxes sample_b) = 1%nat.
Proof.
  assert (E : _data_generation world_b config_b 1 = Ok sample_b)
    by (vm_compute; reflexivity).
  assert (Himg : Sample.img sample_b <> NoImg) by discriminate.
  destruct (sample_instance_counts world_b config_b 1 sample_b E) as (H1 & H2 & H3).
  destruct (H1 eq_refl) as [Hm _]. destruct (H3 Himg) as [Hl Hb].
  exact (conj Hm (conj H2 (conj Hl Hb))).
Defined.

(** X17, on an id of [world_a] that has no annotation. *)
Lemma no_annotation_with_masks_raises_witness :
  _resize_mask world_a config_a [] = Raise ZeroDivisionError /\
  _data_generation world_a config_a 5 = Raise ZeroDivisionError.
Proof.
  assert (Hfin : is_finite (float_of_int (Z.of_nat (fst (fst (img_shape config_a)))))
                 = true) by (vm_compute; reflexivity).
  exact (no_annotation_with_masks_raises world_a config_a 5 eq_refl eq_refl Hfin).
Defined.

(** X18, on the mask of [world_a]. *)
Lemma resize_mask_boxes_enclose_witness :
  Forall2 box_encloses [(2, 1, 5, 2)] [mask_a].
Proof.
  assert (E : _resize_mask world_a config_a [mask_a] = Ok ([mask_a], [(2, 1, 5, 2)]))
    by (vm_compute; reflexivity).
  assert (Hrect : forall s m r, In m [mask_a] ->
            cv2_resize_mask world_a s (map (map float32_of_int) m) = Ok r ->
            rectangular r).
  { intros s m r [<-|[]] Hr.
    apply (resize_nearest_rectangular s (map (map float32_of_int) mask_a) r);
      [|exact Hr].
    unfold mask_a. cbn [map]. repeat constructor; discriminate. }
  assert (Ht0 : Z.of_nat 4 <= 32767) by (simpl; lia).
  assert (Ht1 : Z.of_nat 8 <= 32767) by (simpl; lia).
  exact (resize_mask_boxes_enclose world_a config_a [mask_a] [mask_a] [(2, 1, 5, 2)]
           4 8 3 Hrect eq_refl Ht0 Ht1 E).
Defined.

(** X19, on the batch of [world_b]. *)
Lemma batch_masks_are_binary_planes_witness :
  Forall (Forall (binary_plane 2 2)) (Batch.masks batch_b).
Proof.
  assert (E : next_batch world_b config_b 1 state_b = Ok (batch_b, state_b'))
    by (vm_compute; reflexivity).
  exact (batch_masks_are_binary_planes world_b config_b 1 state_b state_b' batch_b
           2 2 3 eq_refl E).
Defined.

(** X22, on [world_k]. *)
Lemma missing_image_record_raises_witness :
  _data_generation world_k config_plain 1 = Raise KeyError.
Proof.
  assert (Hfin : Forall bbox_finite (getAnns world_k config_plain 1)).
  { change (Forall bbox_finite [ann_b]). constructor; [|constructor].
    vm_compute. repeat split. }
  exact (proj2 (missing_image_record_raises world_k config_plain 1 (or_introl eq_refl))
           eq_refl eq_refl Hfin).
Defined.

(** X23, on [world_big]. *)
Lemma big_int_raises_witness :
  _data_generation world_big config_plain 1 = Raise OverflowError.
Proof.
  assert (Hraw : mapM ann_box (getAnns world_big config_plain 1)
                 = Ok [(2 ^ 70, 0, 2 ^ 70, 2)]) by (vm_compute; reflexivity).
  apply (big_int_raises world_big config_plain 1 (Color (black 2 2)) (black 2 2)
           [(2 ^ 70, 0, 2 ^ 70, 2)] eq_refl eq_refl Hraw eq_refl eq_refl).
  right. constructor. unfold box_all. intros (H & _). vm_compute in H. discriminate.
Defined.

(** X24, on the coordinate 20000 at scale 2. *)
Lemma scaled_coordinate_wraps_witness :
  scale_coord world_a f2 20000 = -25536 /\ scale_coord world_a f2 20000 <> 40000.
Proof.
  assert (Hf : is_finite (fmul (float_of_int 20000) f2) = true)
    by (vm_compute; reflexivity).
  assert (Ht : float_trunc (fmul (float_of_int 20000) f2) = 40000)
    by (vm_compute; reflexivity).
  assert (H32 : in_int32 (float_trunc (fmul (float_of_int 20000) f2)) = true)
    by (vm_compute; reflexivity).
  destruct (scaled_coordinate_wraps world_a f2 20000 Hf H32) as (H1 & _ & _ & H4).
  rewrite Ht in H1, H4. split; [exact H1 | apply H4; reflexivity].
Defined.
